(** * The uniter's event filter (worker/uniter/filter.go)

    A shallow embedding of the [filter] type and of its goroutine: the
    methods [unitChanged], [serviceChanged], [upgradeChanged] and
    [relationsChanged], the start-up phase of [loop] and one iteration of
    its [select].  The state backend and the consumer are the environment:
    every event carries the branch of the [select] that fires together with
    the replies of the backend calls made while the branch is handled. *)

From Stdlib Require Import ZArith Lia.
From stdpp Require Import base decidable list strings sorting.

Open Scope Z_scope.

(** ** Data model *)

(** [state.Life]; [Alive] is the zero value. *)
Inductive Life := Alive | Dying | Dead.

(** [state.ResolvedMode]; [ResolvedNone] is the zero value. *)
Inductive ResolvedMode := ResolvedNone | ResolvedRetryHooks | ResolvedNoHooks.

(** Modelled from the spec: [charm.URL] is declared in package [charm],
    which is not part of the sources at hand.  A charm is "identified by a
    URL" such as [cs:foo-2]; the filter only compares URLs by value
    ([*a != *b]), so a URL is its text. *)
Definition URL := string.

(** [serviceCharm]: a charm URL (a pointer, so possibly nil) and a flag. *)
Record serviceCharm := ServiceCharm { url : option URL; force : bool }.

(** The target of a send in the [select].  [newFilter] gives every [out*]
    field a channel of its own ([ChanInit]) that nobody ever receives from;
    the loop then switches the field between [nil] and the [out*On] channel
    that the consumer reads. *)
Inductive chan := ChanNil | ChanInit | ChanOn.

(** Errors returned by [loop]. *)
Inductive error :=
| ErrDying                       (* tomb.ErrDying *)
| ErrTerminateAgent              (* worker.ErrTerminateAgent *)
| Errorf (msg : string)          (* fmt.Errorf(msg) *)
| NotFoundError (msg : string)   (* a backend error with errors.IsNotFoundError *)
| BackendError (msg : string).   (* any other backend or watcher error *)

Definition IsNotFoundError (e : error) : bool :=
  match e with NotFoundError _ => true | _ => false end.

(** The reply of a backend call. *)
Inductive reply (A : Type) := Done (a : A) | Failed (e : error).
Arguments Done {A} a.
Arguments Failed {A} e.

(** What [Refresh] reads back for the unit and for the service.
    Modelled from the spec: the service's announced charm URL "is always
    set once the service exists", so [service_url] is not optional. *)
Record unit_doc := UnitDoc
  { unit_life : Life; unit_resolved : ResolvedMode; unit_charm : option URL }.
Record service_doc := ServiceDoc
  { service_life : Life; service_url : URL; service_force : bool }.

(** Watchers are told apart by the order in which the backend created them. *)
Definition watcher := nat.

#[global] Instance Life_eq_dec : EqDecision Life.
Proof. solve_decision. Defined.
#[global] Instance ResolvedMode_eq_dec : EqDecision ResolvedMode.
Proof. solve_decision. Defined.
#[global] Instance chan_eq_dec : EqDecision chan.
Proof. solve_decision. Defined.
#[global] Instance error_eq_dec : EqDecision error.
Proof. solve_decision. Defined.

(** What the loop does to the outside world: backend calls, channel
    closes, acknowledgements and deliveries, in the order they happen. *)
Inductive action :=
| StateUnit                          (* f.st.Unit(unitName) *)
| UnitRefresh                        (* f.unit.Refresh() *)
| UnitService                        (* f.unit.Service() *)
| UnitDestroy                        (* f.unit.Destroy() *)
| UnitSetCharmURL (curl : URL)       (* f.unit.SetCharmURL(curl) *)
| UnitClearResolved                  (* f.unit.ClearResolved() *)
| UnitWatch                          (* f.unit.Watch() *)
| UnitWatchConfigSettings            (* f.unit.WatchConfigSettings() *)
| ServiceRefresh                     (* f.service.Refresh() *)
| ServiceWatch                       (* f.service.Watch() *)
| ServiceWatchRelations              (* f.service.WatchRelations() *)
| WatcherStop (w : watcher)          (* w.Stop() or watcher.Stop(w, &f.tomb) *)
| CloseUnitDying                     (* close(f.outUnitDying) *)
| SendDidSetCharm                    (* f.didSetCharm <- nothing *)
| SendDidClearResolved               (* f.didClearResolved <- nothing *)
| SendUpgrade (curl : option URL)    (* f.outUpgrade <- f.upgrade *)
| SendResolved (m : ResolvedMode)    (* f.outResolved <- f.resolved *)
| SendConfig                         (* f.outConfig <- nothing *)
| SendRelations (ids : list Z).      (* f.outRelations <- f.relations *)

#[global] Instance action_eq_dec : EqDecision action.
Proof. solve_decision. Defined.

(** The fields of [filter] that the loop reads and writes, followed by the
    local variables of [loop] and by the counter that names watchers. *)
Record state := State {
  outUnitDying : bool;               (* true once the channel is closed *)
  outConfig : chan;
  outUpgrade : chan;
  outResolved : chan;
  outRelations : chan;
  f_unit : option unit_doc;          (* f.unit, as of its last Refresh *)
  life : Life;
  resolved : ResolvedMode;
  upgradeFrom : serviceCharm;
  upgradeAvailable : serviceCharm;
  upgrade : option URL;
  relations : list Z;
  unitw : option watcher;            (* locals of loop from here on *)
  servicew : option watcher;
  configw : option watcher;
  configChanges : option watcher;    (* the watcher whose Changes() it is *)
  relationsw : option watcher;
  discardConfig : bool;              (* true: f.discardConfig; false: nil *)
  next_watcher : nat
}.

(** The filter built by [newFilter], before [loop] starts. *)
Definition newFilter : state :=
  {| outUnitDying := false;
     outConfig := ChanInit; outUpgrade := ChanInit;
     outResolved := ChanInit; outRelations := ChanInit;
     f_unit := None; life := Alive; resolved := ResolvedNone;
     upgradeFrom := ServiceCharm None false;
     upgradeAvailable := ServiceCharm None false;
     upgrade := None; relations := [];
     unitw := None; servicew := None; configw := None;
     configChanges := None; relationsw := None;
     discardConfig := false; next_watcher := 0 |}.

(** Field updates. *)
Definition set_outUnitDying v (s : state) :=
  State v (outConfig s) (outUpgrade s) (outResolved s) (outRelations s) (f_unit s)
    (life s) (resolved s) (upgradeFrom s) (upgradeAvailable s) (upgrade s)
    (relations s) (unitw s) (servicew s) (configw s) (configChanges s)
    (relationsw s) (discardConfig s) (next_watcher s).
Definition set_outConfig v (s : state) :=
  State (outUnitDying s) v (outUpgrade s) (outResolved s) (outRelations s) (f_unit s)
    (life s) (resolved s) (upgradeFrom s) (upgradeAvailable s) (upgrade s)
    (relations s) (unitw s) (servicew s) (configw s) (configChanges s)
    (relationsw s) (discardConfig s) (next_watcher s).
Definition set_outUpgrade v (s : state) :=
  State (outUnitDying s) (outConfig s) v (outResolved s) (outRelations s) (f_unit s)
    (life s) (resolved s) (upgradeFrom s) (upgradeAvailable s) (upgrade s)
    (relations s) (unitw s) (servicew s) (configw s) (configChanges s)
    (relationsw s) (discardConfig s) (next_watcher s).
Definition set_outResolved v (s : state) :=
  State (outUnitDying s) (outConfig s) (outUpgrade s) v (outRelations s) (f_unit s)
    (life s) (resolved s) (upgradeFrom s) (upgradeAvailable s) (upgrade s)
    (relations s) (unitw s) (servicew s) (configw s) (configChanges s)
    (relationsw s) (discardConfig s) (next_watcher s).
Definition set_outRelations v (s : state) :=
  State (outUnitDying s) (outConfig s) (outUpgrade s) (outResolved s) v (f_unit s)
    (life s) (resolved s) (upgradeFrom s) (upgradeAvailable s) (upgrade s)
    (relations s) (unitw s) (servicew s) (configw s) (configChanges s)
    (relationsw s) (discardConfig s) (next_watcher s).
Definition set_f_unit v (s : state) :=
  State (outUnitDying s) (outConfig s) (outUpgrade s) (outResolved s)
    (outRelations s) v
    (life s) (resolved s) (upgradeFrom s) (upgradeAvailable s) (upgrade s)
    (relations s) (unitw s) (servicew s) (configw s) (configChanges s)
    (relationsw s) (discardConfig s) (next_watcher s).
Definition set_life v (s : state) :=
  State (outUnitDying s) (outConfig s) (outUpgrade s) (outResolved s)
    (outRelations s) (f_unit s)
    v (resolved s) (upgradeFrom s) (upgradeAvailable s) (upgrade s)
    (relations s) (unitw s) (servicew s) (configw s) (configChanges s)
    (relationsw s) (discardConfig s) (next_watcher s).
Definition set_resolved v (s : state) :=
  State (outUnitDying s) (outConfig s) (outUpgrade s) (outResolved s)
    (outRelations s) (f_unit s)
    (life s) v (upgradeFrom s) (upgradeAvailable s) (upgrade s)
    (relations s) (unitw s) (servicew s) (configw s) (configChanges s)
    (relationsw s) (discardConfig s) (next_watcher s).
Definition set_upgradeFrom v (s : state) :=
  State (outUnitDying s) (outConfig s) (outUpgrade s) (outResolved s)
    (outRelations s) (f_unit s)
    (life s) (resolved s) v (upgradeAvailable s) (upgrade s)
    (relations s) (unitw s) (servicew s) (configw s) (configChanges s)
    (relationsw s) (discardConfig s) (next_watcher s).
Definition set_upgradeAvailable v (s : state) :=
  State (outUnitDying s) (outConfig s) (outUpgrade s) (outResolved s)
    (outRelations s) (f_unit s)
    (life s) (resolved s) (upgradeFrom s) v (upgrade s)
    (relations s) (unitw s) (servicew s) (configw s) (configChanges s)
    (relationsw s) (discardConfig s) (next_watcher s).
Definition set_upgrade v (s : state) :=
  State (outUnitDying s) (outConfig s) (outUpgrade s) (outResolved s)
    (outRelations s) (f_unit s)
    (life s) (resolved s) (upgradeFrom s) (upgradeAvailable s) v
    (relations s) (unitw s) (servicew s) (configw s) (configChanges s)
    (relationsw s) (discardConfig s) (next_watcher s).
Definition set_relations v (s : state) :=
  State (outUnitDying s) (outConfig s) (outUpgrade s) (outResolved s)
    (outRelations s) (f_unit s)
    (life s) (resolved s) (upgradeFrom s) (upgradeAvailable s) (upgrade s)
    v (unitw s) (servicew s) (configw s) (configChanges s)
    (relationsw s) (discardConfig s) (next_watcher s).
Definition set_unitw v (s : state) :=
  State (outUnitDying s) (outConfig s) (outUpgrade s) (outResolved s)
    (outRelations s) (f_unit s)
    (life s) (resolved s) (upgradeFrom s) (upgradeAvailable s) (upgrade s)
    (relations s) v (servicew s) (configw s) (configChanges s)
    (relationsw s) (discardConfig s) (next_watcher s).
Definition set_servicew v (s : state) :=
  State (outUnitDying s) (outConfig s) (outUpgrade s) (outResolved s)
    (outRelations s) (f_unit s)
    (life s) (resolved s) (upgradeFrom s) (upgradeAvailable s) (upgrade s)
    (relations s) (unitw s) v (configw s) (configChanges s)
    (relationsw s) (discardConfig s) (next_watcher s).
Definition set_configw v (s : state) :=
  State (outUnitDying s) (outConfig s) (outUpgrade s) (outResolved s)
    (outRelations s) (f_unit s)
    (life s) (resolved s) (upgradeFrom s) (upgradeAvailable s) (upgrade s)
    (relations s) (unitw s) (servicew s) v (configChanges s)
    (relationsw s) (discardConfig s) (next_watcher s).
Definition set_configChanges v (s : state) :=
  State (outUnitDying s) (outConfig s) (outUpgrade s) (outResolved s)
    (outRelations s) (f_unit s)
    (life s) (resolved s) (upgradeFrom s) (upgradeAvailable s) (upgrade s)
    (relations s) (unitw s) (servicew s) (configw s) v
    (relationsw s) (discardConfig s) (next_watcher s).
Definition set_relationsw v (s : state) :=
  State (outUnitDying s) (outConfig s) (outUpgrade s) (outResolved s)
    (outRelations s) (f_unit s)
    (life s) (resolved s) (upgradeFrom s) (upgradeAvailable s) (upgrade s)
    (relations s) (unitw s) (servicew s) (configw s) (configChanges s)
    v (discardConfig s) (next_watcher s).
Definition set_discardConfig v (s : state) :=
  State (outUnitDying s) (outConfig s) (outUpgrade s) (outResolved s)
    (outRelations s) (f_unit s)
    (life s) (resolved s) (upgradeFrom s) (upgradeAvailable s) (upgrade s)
    (relations s) (unitw s) (servicew s) (configw s) (configChanges s)
    (relationsw s) v (next_watcher s).
Definition set_next_watcher v (s : state) :=
  State (outUnitDying s) (outConfig s) (outUpgrade s) (outResolved s)
    (outRelations s) (f_unit s)
    (life s) (resolved s) (upgradeFrom s) (upgradeAvailable s) (upgrade s)
    (relations s) (unitw s) (servicew s) (configw s) (configChanges s)
    (relationsw s) (discardConfig s) v.

(** ** The monad of the loop: state, an early exit, and a trace *)

(** How a method or the loop stops early: a returned error or a panic. *)
Inductive exit := Return (e : error) | Panic (msg : string).

Inductive res (A : Type) := Val (a : A) | Exit (x : exit).
Arguments Val {A} a.
Arguments Exit {A} x.

Definition M (A : Type) : Type := state -> res A * state * list action.

Definition ret {A} (a : A) : M A := fun s => (Val a, s, []).

Definition bind {A B} (m : M A) (k : A -> M B) : M B := fun s =>
  match m s with
  | (Val a, s1, t1) =>
      match k a s1 with (r, s2, t2) => (r, s2, t1 ++ t2) end
  | (Exit x, s1, t1) => (Exit x, s1, t1)
  end.

Declare Scope filter_scope.
Delimit Scope filter_scope with filter.
Notation "x <- m ;; k" := (bind m (fun x => k))
  (at level 100, m at next level, right associativity) : filter_scope.
Notation "m ;; k" := (bind m (fun _ => k))
  (at level 100, right associativity) : filter_scope.
Open Scope filter_scope.

Definition get : M state := fun s => (Val s, s, []).
Definition modify (g : state -> state) : M unit := fun s => (Val tt, g s, []).
Definition emit (a : action) : M unit := fun s => (Val tt, s, [a]).
Definition fail {A} (e : error) : M A := fun s => (Exit (Return e), s, []).
Definition panic {A} (msg : string) : M A := fun s => (Exit (Panic msg), s, []).

(** A backend call that returns an error or nothing else of interest. *)
Definition call {A} (a : action) (r : reply A) : M A :=
  emit a ;; match r with Done v => ret v | Failed e => fail e end.

(** A backend call that starts a watcher. *)
Definition start (a : action) : M watcher :=
  emit a ;; s <- get ;;
  modify (set_next_watcher (S (next_watcher s))) ;;
  ret (next_watcher s).

(** ** The methods of [filter] *)

(** [upgradeChanged].  [*f.upgradeAvailable.url] dereferences a pointer
    that is nil until the first [serviceChanged]. *)
Definition upgradeChanged : M unit :=
  s <- get ;;
  if decide (life s <> Alive) then
    modify (set_outUpgrade ChanNil)
  else match url (upgradeFrom s) with
  | None => modify (set_outUpgrade ChanNil)
  | Some from =>
      match url (upgradeAvailable s) with
      | None => panic "nil pointer dereference"
      | Some avail =>
          if decide (avail <> from) then
            if force (upgradeAvailable s) || negb (force (upgradeFrom s)) then
              (if decide (upgrade s = None \/ upgrade s <> Some avail)
               then modify (set_upgrade (url (upgradeAvailable s)))
               else ret tt) ;;
              modify (set_outUpgrade ChanOn)
            else modify (set_outUpgrade ChanNil)
          else modify (set_outUpgrade ChanNil)
      end
  end.

(** [unitChanged]; [r] is the reply of [f.unit.Refresh()]. *)
Definition unitChanged (r : reply unit_doc) : M unit :=
  emit UnitRefresh ;;
  match r with
  | Failed e =>
      if IsNotFoundError e then fail ErrTerminateAgent else fail e
  | Done d =>
      modify (set_f_unit (Some d)) ;;
      s <- get ;;
      (if decide (life s <> unit_life d) then
         modify (set_life (unit_life d)) ;;
         match unit_life d with
         | Dying =>
             (if outUnitDying s then panic "close of closed channel"
              else emit CloseUnitDying ;; modify (set_outUnitDying true)) ;;
             modify (set_outUpgrade ChanNil)
         | Dead => fail ErrTerminateAgent
         | Alive => ret tt
         end
       else ret tt) ;;
      s <- get ;;
      if decide (unit_resolved d <> resolved s) then
        modify (set_resolved (unit_resolved d)) ;;
        if decide (unit_resolved d <> ResolvedNone)
        then modify (set_outResolved ChanOn)
        else ret tt
      else ret tt
  end.

(** [serviceChanged]; [r] is the reply of [f.service.Refresh()] and
    [destroy] that of [f.unit.Destroy()], should it be called. *)
Definition serviceChanged (r : reply service_doc) (destroy : reply ()) : M unit :=
  emit ServiceRefresh ;;
  match r with
  | Failed e =>
      if IsNotFoundError e then fail (Errorf "service unexpectedly removed")
      else fail e
  | Done d =>
      modify (set_upgradeAvailable
                (ServiceCharm (Some (service_url d)) (service_force d))) ;;
      match service_life d with
      | Dying => call UnitDestroy destroy
      | Dead => fail (Errorf "service unexpectedly dead")
      | Alive => ret tt
      end ;;
      upgradeChanged
  end.

(** Modelled from the spec: [sort.Ints] belongs to Go's standard library;
    it sorts a slice of ints "ascending". *)
Definition sort_Ints (l : list Z) : list Z := merge_sort Z.le l.

(** The two nested loops of [relationsChanged]: an id is appended unless
    the list, as it stands at that iteration, already holds it. *)
Definition append_new (rels ids : list Z) : list Z :=
  fold_left (fun rels id => if existsb (Z.eqb id) rels then rels else rels ++ [id])
            ids rels.

(** [relationsChanged]. *)
Definition relationsChanged (ids : list Z) : M unit :=
  modify (fun s => set_relations (append_new (relations s) ids) s) ;;
  s <- get ;;
  if decide (length (relations s) <> 0%nat) then
    modify (set_relations (sort_Ints (relations s))) ;;
    modify (set_outRelations ChanOn)
  else ret tt.

(** ** The loop *)

(** The replies of the backend while a [SetCharm] request is handled, and
    which branch of the acknowledging [select] fires. *)
Record setCharm_replies := SetCharmReplies {
  stop_configw : reply ();          (* configw.Stop() *)
  set_charm_url : reply ();         (* f.unit.SetCharmURL(curl) *)
  did_set_charm : bool;             (* true: f.didSetCharm <- nothing;
                                       false: <-f.tomb.Dying() *)
  watch_config : reply ();          (* f.unit.WatchConfigSettings() *)
  stop_relationsw : reply ()        (* relationsw.Stop() *)
}.

(** The same for a [ClearResolved] request. *)
Record clearResolved_replies := ClearResolvedReplies {
  clear_resolved : reply ();        (* f.unit.ClearResolved() *)
  refresh_unit : reply unit_doc;    (* f.unit.Refresh() in unitChanged *)
  did_clear_resolved : bool         (* true: f.didClearResolved <- nothing;
                                       false: <-f.tomb.Dying() *)
}.

(** The replies of the backend during the start-up phase of [loop]. *)
Record startup_replies := StartupReplies {
  st_unit : reply unit_doc;               (* f.st.Unit(unitName) *)
  first_unit_refresh : reply unit_doc;    (* f.unit.Refresh() *)
  unit_service : reply ();                (* f.unit.Service() *)
  first_service_refresh : reply service_doc;
  first_destroy : reply ();               (* f.unit.Destroy() *)
  first_watch_config : reply ()           (* f.unit.WatchConfigSettings() *)
}.

(** One branch of the [select] of [loop], as the scheduler picks it.  For a
    watcher, [*Change] is a notification and [*Closed e] the closure of its
    [Changes()] channel, [e] being what [watcher.MustErr] then returns. *)
Inductive event :=
| TombDying
| UnitChange (r : reply unit_doc)
| UnitClosed (e : error)
| ServiceChange (r : reply service_doc) (destroy : reply ())
| ServiceClosed (e : error)
| ConfigChange
| ConfigClosed (e : error)
| RelationsChange (ids : list Z)
| RelationsClosed (e : error)
| DeliverUpgrade                    (* the consumer reads UpgradeEvents() *)
| DeliverResolved                   (* ... ResolvedEvents() *)
| DeliverConfig                     (* ... ConfigEvents() *)
| DeliverRelations                  (* ... RelationsEvents() *)
| SetCharm (curl : URL) (r : setCharm_replies)
| WantUpgradeEvent (mustForce : bool)
| WantResolvedEvent
| ClearResolved (r : clearResolved_replies)
| DiscardConfigEvent.

(** [w, err = f.unit.WatchConfigSettings()]: the watcher is nil on error. *)
Definition watchConfigSettings (r : reply ()) : M unit :=
  emit UnitWatchConfigSettings ;;
  match r with
  | Failed e => modify (set_configw None) ;; fail e
  | Done _ =>
      s <- get ;;
      modify (set_next_watcher (S (next_watcher s))) ;;
      modify (set_configw (Some (next_watcher s))) ;;
      modify (set_configChanges (Some (next_watcher s)))
  end.

(** The [case curl := <-f.setCharm] branch. *)
Definition setCharm (curl : URL) (r : setCharm_replies) : M unit :=
  s <- get ;;
  match configw s with
  | Some w => call (WatcherStop w) (stop_configw r)
  | None => ret tt
  end ;;
  call (UnitSetCharmURL curl) (set_charm_url r) ;;
  (if did_set_charm r then emit SendDidSetCharm else fail ErrDying) ;;
  watchConfigSettings (watch_config r) ;;
  s <- get ;;
  match relationsw s with
  | Some w => call (WatcherStop w) (stop_relationsw r)
  | None => panic "nil pointer dereference"
  end ;;
  w <- start ServiceWatchRelations ;;
  modify (set_relationsw (Some w)) ;;
  modify (fun s => set_upgradeFrom
                     (ServiceCharm (Some curl) (force (upgradeFrom s))) s) ;;
  upgradeChanged.

(** The [case <-f.clearResolved] branch. *)
Definition clearResolved (r : clearResolved_replies) : M unit :=
  modify (set_outResolved ChanNil) ;;
  call UnitClearResolved (clear_resolved r) ;;
  unitChanged (refresh_unit r) ;;
  if did_clear_resolved r then emit SendDidClearResolved else fail ErrDying.

(** Whether a branch of the [select] can fire: a receive from a nil
    channel and a send to a channel nobody reads never do. *)
Definition ready (ev : event) (s : state) : bool :=
  match ev with
  | ConfigChange | ConfigClosed _ => bool_decide (configChanges s <> None)
  | DeliverUpgrade => bool_decide (outUpgrade s = ChanOn)
  | DeliverResolved => bool_decide (outResolved s = ChanOn)
  | DeliverConfig => bool_decide (outConfig s = ChanOn)
  | DeliverRelations => bool_decide (outRelations s = ChanOn)
  | DiscardConfigEvent => discardConfig s
  | _ => true
  end.

(** The body of the branch that fires. *)
Definition handle (ev : event) : M unit :=
  match ev with
  | TombDying => fail ErrDying
  | UnitChange r => unitChanged r
  | UnitClosed e => fail e
  | ServiceChange r destroy => serviceChanged r destroy
  | ServiceClosed e => fail e
  | ConfigChange =>
      modify (set_outConfig ChanOn) ;; modify (set_discardConfig true)
  | ConfigClosed e => fail e
  | RelationsChange ids => relationsChanged ids
  | RelationsClosed e => fail e
  | DeliverUpgrade =>
      s <- get ;; emit (SendUpgrade (upgrade s)) ;;
      modify (set_outUpgrade ChanNil)
  | DeliverResolved =>
      s <- get ;; emit (SendResolved (resolved s)) ;;
      modify (set_outResolved ChanNil)
  | DeliverConfig =>
      emit SendConfig ;; modify (set_outConfig ChanNil)
  | DeliverRelations =>
      s <- get ;; emit (SendRelations (relations s)) ;;
      modify (set_outRelations ChanNil) ;; modify (set_relations [])
  | SetCharm curl r => setCharm curl r
  | WantUpgradeEvent mustForce =>
      modify (fun s => set_upgradeFrom
                         (ServiceCharm (url (upgradeFrom s)) mustForce) s) ;;
      upgradeChanged
  | WantResolvedEvent =>
      s <- get ;;
      if decide (resolved s <> ResolvedNone)
      then modify (set_outResolved ChanOn) else ret tt
  | ClearResolved r => clearResolved r
  | DiscardConfigEvent => modify (set_outConfig ChanNil)
  end.

(** One iteration of the [for { select { ... } }]; [None] when the branch
    cannot fire in [s]. *)
Definition select (ev : event) (s : state) : option (res unit * state * list action) :=
  if ready ev s then Some (handle ev s) else None.

(** The part of [loop] before the [for]. *)
Definition startup (o : startup_replies) : M unit :=
  d <- call StateUnit (st_unit o) ;;
  modify (set_f_unit (Some d)) ;;
  unitChanged (first_unit_refresh o) ;;
  call UnitService (unit_service o) ;;
  serviceChanged (first_service_refresh o) (first_destroy o) ;;
  w <- start UnitWatch ;; modify (set_unitw (Some w)) ;;
  w <- start ServiceWatch ;; modify (set_servicew (Some w)) ;;
  s <- get ;;
  match f_unit s with
  | None => panic "nil pointer dereference"
  | Some d =>
      match unit_charm d with
      | Some curl =>
          watchConfigSettings (first_watch_config o) ;;
          modify (fun s => set_upgradeFrom
                             (ServiceCharm (Some curl) (force (upgradeFrom s))) s)
      | None => ret tt
      end
  end ;;
  w <- start ServiceWatchRelations ;;
  modify (set_relationsw (Some w)).

(** The deferred calls of [loop], last registered first. *)
Definition stop (w : option watcher) : list action :=
  match w with Some w => [WatcherStop w] | None => [] end.
Definition deferred (s : state) : list action :=
  stop (relationsw s) ++ stop (configw s) ++ stop (servicew s) ++ stop (unitw s).

(** Where a run of the loop stands: waiting in the [select], or returned. *)
Inductive outcome := Running (s : state) | Stopped (x : exit) (s : state).

(** The [for] of [loop] under a schedule [evs].  [None]: the schedule asks
    for a branch that cannot fire, or goes on after the loop returned. *)
Fixpoint iterate (evs : list event) (s : state) : option (outcome * list action) :=
  match evs with
  | [] => Some (Running s, [])
  | ev :: evs' =>
      match select ev s with
      | None => None
      | Some (Val _, s', t) =>
          match iterate evs' s' with
          | Some (out, t') => Some (out, t ++ t')
          | None => None
          end
      | Some (Exit x, s', t) =>
          match evs' with
          | [] => Some (Stopped x s', t ++ deferred s')
          | _ :: _ => None
          end
      end
  end.

(** [loop], from the filter that [newFilter] builds. *)
Definition loop (o : startup_replies) (evs : list event) : option (outcome * list action) :=
  match startup o newFilter with
  | (Val _, s, t) =>
      match iterate evs s with
      | Some (out, t') => Some (out, t ++ t')
      | None => None
      end
  | (Exit x, s, t) =>
      match evs with
      | [] => Some (Stopped x s, t ++ deferred s)
      | _ :: _ => None
      end
  end.

(** ** Runs on concrete schedules *)

Definition foo1 : URL := "cs:foo-1".
Definition foo2 : URL := "cs:foo-2".
Definition foo3 : URL := "cs:foo-3".

(** A unit that is alive and runs [cs:foo-1] of a service that announces
    [cs:foo-2]; every backend call succeeds. *)
Definition quiet_start : startup_replies :=
  {| st_unit := Done (UnitDoc Alive ResolvedNone (Some foo1));
     first_unit_refresh := Done (UnitDoc Alive ResolvedNone (Some foo1));
     unit_service := Done tt;
     first_service_refresh := Done (ServiceDoc Alive foo2 false);
     first_destroy := Done tt;
     first_watch_config := Done tt |}.

Definition all_ok : setCharm_replies :=
  SetCharmReplies (Done tt) (Done tt) true (Done tt) (Done tt).

Definition trace_of (r : option (outcome * list action)) : list action :=
  match r with Some (_, t) => t | None => [] end.

(** ** Definitions for the statements *)

(** [f.outUpgrade = nil] with nothing else touched, as a result. *)
Definition disarmed (s : state) : res () * state * list action :=
  (Val tt, set_outUpgrade ChanNil s, []).

(** [f.upgrade = f.upgradeAvailable.url; f.outUpgrade = f.outUpgradeOn]. *)
Definition armed (curl : URL) (s : state) : res () * state * list action :=
  (Val tt, set_outUpgrade ChanOn (set_upgrade (Some curl) s), []).

(** [m] run after the actions [t0]. *)
Definition after (t0 : list action) (m : M ()) (s : state) : res () * state * list action :=
  match m s with (r, s', t) => (r, s', t0 ++ t) end.

(** The state in which [setCharm] calls [upgradeChanged]: both watchers
    are new and [f.upgradeFrom.url] is the new URL. *)
Definition charm_set (curl : URL) (s : state) : state :=
  let w := next_watcher s in
  set_upgradeFrom (ServiceCharm (Some curl) (force (upgradeFrom s)))
    (set_relationsw (Some (S w))
       (set_configChanges (Some w)
          (set_configw (Some w) (set_next_watcher (S (S w)) s)))).

(** [filter.SetCharm] as its caller sees it, once the loop has taken the
    request and produced the trace [t]: [nil] after [<-f.didSetCharm],
    [tomb.ErrDying] after [<-f.tomb.Dying()]. *)
Definition SetCharm_result (t : list action) : option error :=
  if bool_decide (SendDidSetCharm ∈ t) then None else Some ErrDying.

(** The service as [serviceChanged] stores it in [f.upgradeAvailable]. *)
Definition refreshed (d : service_doc) (s : state) : state :=
  set_upgradeAvailable (ServiceCharm (Some (service_url d)) (service_force d)) s.

(** The loop of [quiet_start] as it first waits in its [select]. *)
Definition started : state :=
  Eval vm_compute in
    match loop quiet_start [] with Some (Running s, _) => s | _ => newFilter end.

(** Lines 420-425 of [unitChanged]: a resolved mode that differs from
    the one held is stored, and arms the resolved output unless it is
    [ResolvedNone]. *)
Definition note_resolved (d : unit_doc) (s : state) : state :=
  if decide (unit_resolved d <> resolved s) then
    if decide (unit_resolved d <> ResolvedNone)
    then set_outResolved ChanOn (set_resolved (unit_resolved d) s)
    else set_resolved (unit_resolved d) s
  else s.

(** Deliveries to the consumer, among the actions. *)
Definition is_send (a : action) : bool :=
  match a with
  | SendUpgrade _ | SendResolved _ | SendConfig | SendRelations _ => true
  | _ => false
  end.

(** The pending relation ids are strictly ascending. *)
Definition relations_sorted (s : state) : Prop :=
  StronglySorted Z.lt (relations s).

(** A delivery of relation ids is strictly ascending. *)
Definition sends_sorted (a : action) : Prop :=
  match a with SendRelations l => StronglySorted Z.lt l | _ => True end.

(** What [unitChanged] and [serviceChanged] leave alone: the config and
    relations outputs, the pending relation ids, [f.upgradeFrom] and the
    local variables of [loop]. *)
Definition untouched (s s' : state) : Prop :=
  relations s' = relations s /\ outConfig s' = outConfig s /\
  outRelations s' = outRelations s /\ discardConfig s' = discardConfig s /\
  upgradeFrom s' = upgradeFrom s /\
  configw s' = configw s /\ configChanges s' = configChanges s /\
  relationsw s' = relationsw s.

(** Whether a config notification has been observed since the last
    delivery or discard, along the schedule [evs]; [b] tells so for the
    time before [evs]. *)
Fixpoint config_pending (evs : list event) (b : bool) : bool :=
  match evs with
  | [] => b
  | ConfigChange :: evs' => config_pending evs' true
  | (DeliverConfig | DiscardConfigEvent) :: evs' => config_pending evs' false
  | _ :: evs' => config_pending evs' b
  end.

(** The target of the config output after the branch [ev] has run. *)
Definition config_after (ev : event) (c : chan) : chan :=
  match ev with
  | ConfigChange => ChanOn
  | DeliverConfig | DiscardConfigEvent => ChanNil
  | _ => c
  end.

(** Whether a config notification has been observed at all. *)
Definition is_ConfigChange (ev : event) : bool :=
  match ev with ConfigChange => true | _ => false end.
Definition config_seen (evs : list event) : bool := existsb is_ConfigChange evs.

(** [filter.DiscardConfigEvent] as its caller sees it: the call returns
    when the tomb is dying or when the loop receives from
    [f.discardConfig]. *)
Definition DiscardConfigEvent_returns (dying : bool) (s : state) : bool :=
  dying || ready DiscardConfigEvent s.

(** The branches of the [select] that end with [upgradeChanged]. *)
Definition may_arm (ev : event) : bool :=
  match ev with
  | ServiceChange _ _ | SetCharm _ _ | WantUpgradeEvent _ => true
  | _ => false
  end.

(** Requests to change the charm, among the events. *)
Definition is_SetCharm (ev : event) : bool :=
  match ev with SetCharm _ _ => true | _ => false end.

(** The unit runs [curl]: [f.upgradeFrom.url] is [curl], and an armed
    upgrade output holds another URL. *)
Definition charm_adopted (curl : URL) (s : state) : Prop :=
  url (upgradeFrom s) = Some curl /\
  (outUpgrade s = ChanOn -> exists a, upgrade s = Some a /\ a <> curl).

(** A delivered upgrade holds a URL other than [curl]. *)
Definition upgrade_differs (curl : URL) (a : action) : Prop :=
  match a with
  | SendUpgrade u => exists a', u = Some a' /\ a' <> curl
  | _ => True
  end.

(** The backend keeps to "transitioning to Dying or Dead is
    irreversible": the unit that [ev] reads back is not alive. *)
Definition stays_dying (ev : event) : Prop :=
  match ev with
  | UnitChange (Done d) => unit_life d <> Alive
  | ClearResolved r =>
      match refresh_unit r with Done d => unit_life d <> Alive | Failed _ => True end
  | _ => True
  end.

(** The filter of a dying unit: [f.outUnitDying] is closed and the
    upgrade output is not armed. *)
Definition unit_dying (s : state) : Prop :=
  life s = Dying /\ outUnitDying s = true /\ outUpgrade s <> ChanOn.

(** Neither an upgrade delivery nor a close of [f.outUnitDying]. *)
Definition no_upgrade (a : action) : Prop :=
  match a with SendUpgrade _ | CloseUnitDying => False | _ => True end.

(** The branches that arm, deliver and discard config, relations and
    resolved events, unit notifications apart. *)
Definition other_outputs (ev : event) : bool :=
  match ev with
  | ConfigChange | RelationsChange _ | DeliverConfig | DeliverResolved
  | DeliverRelations | WantResolvedEvent | DiscardConfigEvent => true
  | _ => false
  end.

(** A result of the loop with [f.life] replaced. *)
Definition with_life (l : Life) (x : res () * state * list action) : res () * state * list action :=
  match x with (r, s, t) => (r, set_life l s, t) end.

(** The loop of [quiet_start] after [WantUpgradeEvent(false)]: the
    upgrade to [cs:foo-2] is armed. *)
Definition upgrade_armed : state :=
  Eval vm_compute in
    match iterate [WantUpgradeEvent false] started with
    | Some (Running s, _) => s
    | _ => started
    end.

(** ** Definitions for the further properties *)

(** The filter's view of the unit is the one its last [Refresh] read back,
    and the unit is not dead. *)
Definition coherent (s : state) : Prop :=
  exists d, f_unit s = Some d /\ life s = unit_life d /\
            resolved s = unit_resolved d /\ life s <> Dead.

(** What [upgradeChanged] arms for: the unit is alive and runs a charm,
    the service announces another one that the policy lets through, and
    that one is the pending upgrade. *)
Definition upgrade_due (s : state) : Prop :=
  life s = Alive /\
  exists from avail,
    url (upgradeFrom s) = Some from /\ url (upgradeAvailable s) = Some avail /\
    avail <> from /\
    force (upgradeAvailable s) || negb (force (upgradeFrom s)) = true /\
    upgrade s = Some avail.

(** An armed upgrade output is due. *)
Definition upgrade_armed_due (s : state) : Prop :=
  outUpgrade s = ChanOn -> upgrade_due s.

(** A delivered upgrade holds a URL. *)
Definition upgrade_not_nil (a : action) : Prop :=
  match a with SendUpgrade None => False | _ => True end.

(** The relations output is armed exactly when ids are pending. *)
Definition relations_armed (s : state) : Prop :=
  outRelations s = ChanOn <-> relations s <> [].

(** A delivery of relation ids is not empty. *)
Definition sends_some (a : action) : Prop :=
  match a with SendRelations [] => False | _ => True end.

(** The four outputs of the filter. *)
Inductive output := Upgrade | Resolved | Config | Relations.

(** The send target of an output, the branch that delivers it, and the
    branches that can arm it. *)
Definition target (o : output) (s : state) : chan :=
  match o with
  | Upgrade => outUpgrade s
  | Resolved => outResolved s
  | Config => outConfig s
  | Relations => outRelations s
  end.
Definition deliver (o : output) : event :=
  match o with
  | Upgrade => DeliverUpgrade
  | Resolved => DeliverResolved
  | Config => DeliverConfig
  | Relations => DeliverRelations
  end.
Definition arms (o : output) (ev : event) : bool :=
  match o, ev with
  | Upgrade, (ServiceChange _ _ | SetCharm _ _ | WantUpgradeEvent _) => true
  | Resolved, (UnitChange _ | ClearResolved _ | WantResolvedEvent) => true
  | Config, ConfigChange => true
  | Relations, RelationsChange _ => true
  | _, _ => false
  end.

(** Events that make the loop read the unit back. *)
Definition reads_unit (ev : event) : bool :=
  match ev with UnitChange _ | ClearResolved _ => true | _ => false end.

(** The resolved flag is cleared and no resolved event is on offer. *)
Definition resolved_cleared (s : state) : Prop :=
  resolved s = ResolvedNone /\ outResolved s <> ChanOn.

(** Not a delivery of a resolved event. *)
Definition no_resolved (a : action) : Prop :=
  match a with SendResolved _ => False | _ => True end.

(** [filter.ClearResolved] as its caller sees it, once the loop has taken
    the request and produced the trace [t]: [nil] after
    [<-f.didClearResolved], [tomb.ErrDying] after [<-f.tomb.Dying()]. *)
Definition ClearResolved_result (t : list action) : option error :=
  if bool_decide (SendDidClearResolved ∈ t) then None else Some ErrDying.

(** The life that the unit is read back with while [ev] is handled. *)
Definition reported_life (ev : event) : option Life :=
  match ev with
  | UnitChange (Done d) => Some (unit_life d)
  | ClearResolved r =>
      match clear_resolved r, refresh_unit r with
      | Done _, Done d => Some (unit_life d)
      | _, _ => None
      end
  | _ => None
  end.

(** [Alive], then [Dying], then [Dead]. *)
Definition life_le (a b : Life) : bool :=
  match a, b with
  | Alive, _ | Dying, (Dying | Dead) | Dead, Dead => true
  | _, _ => false
  end.

(** The lives read back along [evs] never step back, [l] being the one
    read back last before [evs]. *)
Fixpoint lives_monotone (l : Life) (evs : list event) : Prop :=
  match evs with
  | [] => True
  | ev :: evs' =>
      match reported_life ev with
      | Some l' => life_le l l' = true /\ lives_monotone l' evs'
      | None => lives_monotone l evs'
      end
  end.

(** The filter of a unit last read back with life [l]: the pointers that
    the loop dereferences are set, and [f.outUnitDying] is closed only for
    a dying unit. *)
Definition lively (l : Life) (s : state) : Prop :=
  life s = l /\ url (upgradeAvailable s) <> None /\ relationsw s <> None /\
  (outUnitDying s = true -> life s = Dying).

(** The watcher [w] is one of the four that the loop holds. *)
Definition held (s : state) (w : watcher) : Prop :=
  unitw s = Some w \/ servicew s = Some w \/ configw s = Some w \/
  relationsw s = Some w.

(** Every watcher started so far is held or has been stopped in [T]. *)
Definition accounted (T : list action) (s : state) : Prop :=
  forall w : watcher, (w < next_watcher s)%nat -> held s w \/ WatcherStop w ∈ T.

(** The error of a reply, if it is one. *)
Definition reply_error {A} (r : reply A) : list error :=
  match r with Failed e => [e] | Done _ => [] end.

(** The errors that the environment hands to the loop with [ev]: those of
    the backend calls and those of closed watchers. *)
Definition given_errors (ev : event) : list error :=
  match ev with
  | UnitChange r => reply_error r
  | UnitClosed e | ServiceClosed e | ConfigClosed e | RelationsClosed e => [e]
  | ServiceChange r destroy => reply_error r ++ reply_error destroy
  | SetCharm _ r =>
      reply_error (stop_configw r) ++ reply_error (set_charm_url r) ++
      reply_error (watch_config r) ++ reply_error (stop_relationsw r)
  | ClearResolved r => reply_error (clear_resolved r) ++ reply_error (refresh_unit r)
  | _ => []
  end.

(** The same for the start-up phase. *)
Definition startup_errors (o : startup_replies) : list error :=
  reply_error (st_unit o) ++ reply_error (first_unit_refresh o) ++
  reply_error (unit_service o) ++ reply_error (first_service_refresh o) ++
  reply_error (first_destroy o) ++ reply_error (first_watch_config o).

(** The errors that the filter makes up itself. *)
Definition own_errors : list error :=
  [ErrDying; ErrTerminateAgent; Errorf "service unexpectedly removed";
   Errorf "service unexpectedly dead"].

(** Whether the unit is read back dying while [ev] is handled, and whether
    it has been along [evs]. *)
Definition reports_dying (ev : event) : bool :=
  bool_decide (reported_life ev = Some Dying).
Definition seen_dying (evs : list event) : bool := existsb reports_dying evs.

(** ** Basic facts *)

(** Unfolds [upgradeChanged] and the monad under it. *)
Ltac unfold_loop :=
  cbv [upgradeChanged bind ret get modify emit fail panic] in *.

Lemma set_upgrade_same (s : state) (o : option URL) :
  upgrade s = o -> set_upgrade o s = s.
Proof. intros <-. by destruct s. Qed.

Lemma upgradeChanged_not_alive (s : state) :
  life s <> Alive -> upgradeChanged s = disarmed s.
Proof. intros. unfold_loop. by case_decide. Qed.

Lemma upgradeChanged_no_charm (s : state) :
  url (upgradeFrom s) = None -> upgradeChanged s = disarmed s.
Proof. intros E. unfold_loop. rewrite E. by case_decide. Qed.

Lemma upgradeChanged_alive (s : state) (from avail : URL) :
  life s = Alive ->
  url (upgradeFrom s) = Some from ->
  url (upgradeAvailable s) = Some avail ->
  upgradeChanged s =
    if bool_decide (avail = from) then disarmed s
    else if force (upgradeAvailable s) || negb (force (upgradeFrom s))
         then armed avail s else disarmed s.
Proof.
  intros L F A. unfold_loop. rewrite F, A.
  case_decide; [done|].
  case_bool_decide; case_decide; try done.
  destruct (_ || _); [|done].
  unfold armed. case_decide as U; simpl; [done|].
  rewrite set_upgrade_same; [done|].
  destruct (decide (upgrade s = Some avail)); [done|]. naive_solver.
Qed.

Lemma wantUpgradeEvent_unfold (s : state) (mustForce : bool) :
  handle (WantUpgradeEvent mustForce) s =
  after [] upgradeChanged
    (set_upgradeFrom (ServiceCharm (url (upgradeFrom s)) mustForce) s).
Proof. reflexivity. Qed.

Lemma serviceChanged_unfold (s : state) (r : reply service_doc) (destroy : reply ()) :
  serviceChanged r destroy s =
  match r with
  | Failed e =>
      (Exit (Return (if IsNotFoundError e
                     then Errorf "service unexpectedly removed" else e)),
       s, [ServiceRefresh])
  | Done d =>
      match service_life d, destroy with
      | Alive, _ => after [ServiceRefresh] upgradeChanged (refreshed d s)
      | Dying, Done _ =>
          after [ServiceRefresh; UnitDestroy] upgradeChanged (refreshed d s)
      | Dying, Failed e =>
          (Exit (Return e), refreshed d s, [ServiceRefresh; UnitDestroy])
      | Dead, _ =>
          (Exit (Return (Errorf "service unexpectedly dead")),
           refreshed d s, [ServiceRefresh])
      end
  end.
Proof.
  destruct r as [d|e].
  - unfold serviceChanged, after, refreshed, call, bind, emit, modify, ret, fail.
    destruct (service_life d), destroy; simpl;
      try destruct (upgradeChanged _) as [[??]?]; reflexivity.
  - unfold serviceChanged, bind, emit, fail. by destruct (IsNotFoundError e).
Qed.

Lemma setCharm_unfold (s : state) (curl : URL) (r : setCharm_replies) (rw : watcher) :
  relationsw s = Some rw ->
  setCharm curl r s =
  match (match configw s with Some _ => stop_configw r | None => Done tt end),
        set_charm_url r, did_set_charm r, watch_config r, stop_relationsw r with
  | Failed e, _, _, _, _ => (Exit (Return e), s, stop (configw s))
  | Done _, Failed e, _, _, _ =>
      (Exit (Return e), s, stop (configw s) ++ [UnitSetCharmURL curl])
  | Done _, Done _, false, _, _ =>
      (Exit (Return ErrDying), s, stop (configw s) ++ [UnitSetCharmURL curl])
  | Done _, Done _, true, Failed e, _ =>
      (Exit (Return e), set_configw None s,
       stop (configw s) ++
       [UnitSetCharmURL curl; SendDidSetCharm; UnitWatchConfigSettings])
  | Done _, Done _, true, Done _, Failed e =>
      (Exit (Return e),
       set_configChanges (Some (next_watcher s))
         (set_configw (Some (next_watcher s))
            (set_next_watcher (S (next_watcher s)) s)),
       stop (configw s) ++
       [UnitSetCharmURL curl; SendDidSetCharm; UnitWatchConfigSettings;
        WatcherStop rw])
  | Done _, Done _, true, Done _, Done _ =>
      after (stop (configw s) ++
             [UnitSetCharmURL curl; SendDidSetCharm; UnitWatchConfigSettings;
              WatcherStop rw; ServiceWatchRelations])
            upgradeChanged (charm_set curl s)
  end.
Proof.
  intros R.
  unfold setCharm, after, charm_set, watchConfigSettings, call, start,
    bind, emit, modify, get, ret, fail.
  destruct r as [sc su ack wc sr]; simpl.
  destruct (configw s) as [w|]; simpl;
    try destruct sc; simpl; try reflexivity;
    destruct su; simpl; try reflexivity;
    destruct ack; simpl; try reflexivity;
    destruct wc; simpl; try reflexivity;
    rewrite R; destruct sr; simpl; try reflexivity;
    destruct (upgradeChanged _) as [[??]?]; reflexivity.
Qed.

(** ** The upgrade decision *)

(** C1.  [upgradeChanged] follows the ordered rules: a unit that is not
    alive disarms; an unset [upgradeFrom.url] disarms; equal URLs disarm;
    different URLs arm with the available URL as pending upgrade when the
    available charm is forced or the consumer did not ask for forced
    upgrades only, and disarm otherwise.  It is what a service change that
    the loop survives, a completed [SetCharm] and a [WantUpgradeEvent]
    request end with. *)
Theorem upgradeChanged_rules (s : state) :
  (life s <> Alive -> upgradeChanged s = disarmed s) /\
  (life s = Alive -> url (upgradeFrom s) = None ->
   upgradeChanged s = disarmed s) /\
  (forall from avail : URL,
     life s = Alive ->
     url (upgradeFrom s) = Some from ->
     url (upgradeAvailable s) = Some avail ->
     (avail = from -> upgradeChanged s = disarmed s) /\
     (avail <> from ->
      force (upgradeAvailable s) = true \/ force (upgradeFrom s) = false ->
      upgradeChanged s = armed avail s) /\
     (avail <> from ->
      force (upgradeAvailable s) = false -> force (upgradeFrom s) = true ->
      upgradeChanged s = disarmed s)) /\
  (forall (d : service_doc) (destroy : reply ()),
     service_life d = Alive \/ service_life d = Dying /\ destroy = Done tt ->
     exists t0,
       handle (ServiceChange (Done d) destroy) s =
       after t0 upgradeChanged (refreshed d s)) /\
  (forall (curl : URL) (r : setCharm_replies) (rw : watcher),
     relationsw s = Some rw ->
     r = SetCharmReplies (Done tt) (Done tt) true (Done tt) (Done tt) ->
     exists t0,
       handle (SetCharm curl r) s = after t0 upgradeChanged (charm_set curl s)) /\
  (forall mustForce : bool,
     handle (WantUpgradeEvent mustForce) s =
     after [] upgradeChanged
       (set_upgradeFrom (ServiceCharm (url (upgradeFrom s)) mustForce) s)).
Proof.
  split; [apply upgradeChanged_not_alive|].
  split; [intros _; apply upgradeChanged_no_charm|].
  split; [|split; [|split]].
  - intros from avail L F A. rewrite (upgradeChanged_alive s from avail L F A).
    repeat split.
    + intros ->. by rewrite bool_decide_eq_true_2.
    + intros N [-> | ->]; rewrite bool_decide_eq_false_2 by done; [done|].
      by rewrite orb_true_r.
    + intros N -> ->. by rewrite bool_decide_eq_false_2.
  - intros d destroy H. simpl. rewrite serviceChanged_unfold.
    destruct H as [-> | [-> ->]]; eauto.
  - intros curl r rw R ->. simpl. rewrite (setCharm_unfold s curl _ rw R).
    destruct (configw s); simpl; eauto.
  - intros. apply wantUpgradeEvent_unfold.
Qed.

(** The rules of C1 on a unit that runs [cs:foo-1] while the service
    announces [cs:foo-2], unforced, to a consumer that takes any upgrade. *)
Lemma upgradeChanged_rules_witness :
  upgradeChanged started = armed foo2 started.
Proof.
  refine (proj1 (proj2 (proj1 (proj2 (proj2 (upgradeChanged_rules started)))
    foo1 foo2 _ _ _)) _ _).
  - reflexivity.
  - reflexivity.
  - reflexivity.
  - discriminate.
  - by right.
Defined.

(** ** Service notifications *)

(** C6, as the claim has it, fails: a service that is dying, whose unit
    is destroyed without error, still has its charm stored in
    [f.upgradeAvailable] and the upgrade decision taken again.  Here the
    upgrade output goes from nil to armed for [cs:foo-3]. *)
Lemma dying_service_arms_upgrade :
  outUpgrade started = ChanNil /\
  upgradeAvailable started = ServiceCharm (Some foo2) false /\
  exists s' : state,
    handle (ServiceChange (Done (ServiceDoc Dying foo3 true)) (Done tt)) started
    = (Val tt, s', [ServiceRefresh; UnitDestroy]) /\
    upgradeAvailable s' = ServiceCharm (Some foo3) true /\
    upgrade s' = Some foo3 /\
    outUpgrade s' = ChanOn.
Proof.
  split; [reflexivity|]. split; [reflexivity|].
  eexists. split; [vm_compute; reflexivity|]. by vm_compute.
Qed.

(** C6, amended.  On a service notification the loop re-reads the
    service.  A not-found error ends the loop with "service unexpectedly
    removed" and any other error with that error.  Otherwise the announced
    charm URL and force flag are stored in [f.upgradeAvailable] whatever
    the service's life; then a dying service has the unit destroyed, an
    error of which ends the loop, a dead service ends the loop with
    "service unexpectedly dead", and in the cases left (alive, or dying
    with the unit destroyed) the upgrade decision is taken again. *)
Theorem serviceChanged_cases (s : state) (r : reply service_doc) (destroy : reply ()) :
  (forall e, r = Failed e -> IsNotFoundError e = true ->
     handle (ServiceChange r destroy) s =
     (Exit (Return (Errorf "service unexpectedly removed")), s, [ServiceRefresh])) /\
  (forall e, r = Failed e -> IsNotFoundError e = false ->
     handle (ServiceChange r destroy) s = (Exit (Return e), s, [ServiceRefresh])) /\
  (forall d, r = Done d ->
     (service_life d = Dying -> forall e, destroy = Failed e ->
      handle (ServiceChange r destroy) s =
      (Exit (Return e), refreshed d s, [ServiceRefresh; UnitDestroy])) /\
     (service_life d = Dying -> destroy = Done tt ->
      handle (ServiceChange r destroy) s =
      after [ServiceRefresh; UnitDestroy] upgradeChanged (refreshed d s)) /\
     (service_life d = Dead ->
      handle (ServiceChange r destroy) s =
      (Exit (Return (Errorf "service unexpectedly dead")), refreshed d s,
       [ServiceRefresh])) /\
     (service_life d = Alive ->
      handle (ServiceChange r destroy) s =
      after [ServiceRefresh] upgradeChanged (refreshed d s))).
Proof.
  simpl. rewrite serviceChanged_unfold. repeat split.
  - by intros e -> ->.
  - by intros e -> ->.
  - by intros L e ->; subst r; rewrite L.
  - by intros L ->; subst r; rewrite L.
  - by intros L; subst r; rewrite L.
  - by intros L; subst r; rewrite L.
Qed.

(** The last case of C6 on the service of [quiet_start]. *)
Lemma serviceChanged_cases_witness :
  handle (ServiceChange (Done (ServiceDoc Alive foo2 false)) (Done tt)) started =
  after [ServiceRefresh] upgradeChanged
    (refreshed (ServiceDoc Alive foo2 false) started).
Proof.
  refine (proj2 (proj2 (proj2 (proj2 (proj2 (serviceChanged_cases started
    (Done (ServiceDoc Alive foo2 false)) (Done tt))) _ _))) _); reflexivity.
Defined.

(** ** SetCharm requests *)

(** C2, as the claim has it, fails: the acknowledgement is sent before the
    new config watcher is started, so when [WatchConfigSettings] fails the
    loop returns that error although [SetCharm] has returned nil. *)
Lemma setCharm_acknowledged_then_fails :
  handle (SetCharm foo2
            (SetCharmReplies (Done tt) (Done tt) true
               (Failed (BackendError "settings not found")) (Done tt)))
         started
  = (Exit (Return (BackendError "settings not found")),
     set_configw None started,
     [WatcherStop 2%nat; UnitSetCharmURL foo2; SendDidSetCharm;
      UnitWatchConfigSettings]) /\
  SetCharm_result
    [WatcherStop 2%nat; UnitSetCharmURL foo2; SendDidSetCharm;
     UnitWatchConfigSettings] = None.
Proof. split; by vm_compute. Qed.

Lemma SetCharm_result_dying (w : option watcher) (l : list action) :
  SendDidSetCharm ∉ l -> SetCharm_result (stop w ++ l) = Some ErrDying.
Proof.
  intros N. unfold SetCharm_result. rewrite bool_decide_eq_false_2; [done|].
  intros [H|H]%elem_of_app; [|done].
  destruct w; simpl in H; [|by apply not_elem_of_nil in H].
  by apply list_elem_of_singleton in H.
Qed.

Lemma SetCharm_result_nil (l : list action) :
  SendDidSetCharm ∈ l -> SetCharm_result l = None.
Proof. intros H. unfold SetCharm_result. by rewrite bool_decide_eq_true_2. Qed.

(** C2, amended.  For a [SetCharm] request that the loop takes, with
    [stopped] the reply of stopping the current config watcher, if there
    is one: when every backend call succeeds the loop stops that watcher,
    sets the charm URL of the unit, acknowledges, starts a new config
    watcher, stops the relations watcher and starts a new one, in this
    order, then stores the URL in [f.upgradeFrom.url] and takes the upgrade
    decision.  When stopping the config watcher or setting the URL fails,
    the loop returns that error and the caller, never acknowledged, gets
    [tomb.ErrDying]; so it does when the tomb is dying at the
    acknowledgement.  When starting the config watcher or stopping the
    relations watcher fails, the loop returns that error after the caller
    has been acknowledged and has got nil. *)
Theorem setCharm_steps (s : state) (curl : URL) (r : setCharm_replies) (rw : watcher) :
  relationsw s = Some rw ->
  let stopped := match configw s with Some _ => stop_configw r | None => Done tt end in
  (stopped = Done tt -> set_charm_url r = Done tt -> did_set_charm r = true ->
   watch_config r = Done tt -> stop_relationsw r = Done tt ->
   handle (SetCharm curl r) s =
   after (stop (configw s) ++
          [UnitSetCharmURL curl; SendDidSetCharm; UnitWatchConfigSettings;
           WatcherStop rw; ServiceWatchRelations])
         upgradeChanged (charm_set curl s)) /\
  (forall e,
     stopped = Failed e \/ stopped = Done tt /\ set_charm_url r = Failed e ->
     exists s' t,
       handle (SetCharm curl r) s = (Exit (Return e), s', t) /\
       SetCharm_result t = Some ErrDying) /\
  (stopped = Done tt -> set_charm_url r = Done tt -> did_set_charm r = false ->
   exists s' t,
     handle (SetCharm curl r) s = (Exit (Return ErrDying), s', t) /\
     SetCharm_result t = Some ErrDying) /\
  (forall e,
     stopped = Done tt -> set_charm_url r = Done tt -> did_set_charm r = true ->
     watch_config r = Failed e \/
     watch_config r = Done tt /\ stop_relationsw r = Failed e ->
     exists s' t,
       handle (SetCharm curl r) s = (Exit (Return e), s', t) /\
       SetCharm_result t = None).
Proof.
  intros R stopped. simpl handle. rewrite (setCharm_unfold s curl r rw R).
  fold stopped. repeat split.
  - by intros -> -> -> -> ->.
  - intros e [-> | [-> ->]]; do 2 eexists; (split; [reflexivity|]).
    + rewrite <- (app_nil_r (stop _)). apply SetCharm_result_dying, not_elem_of_nil.
    + apply SetCharm_result_dying. by intros ?%list_elem_of_singleton.
  - intros -> -> ->. do 2 eexists. split; [reflexivity|].
    apply SetCharm_result_dying. by intros ?%list_elem_of_singleton.
  - intros e -> -> -> [-> | [-> ->]]; do 2 eexists; (split; [reflexivity|]);
      apply SetCharm_result_nil, elem_of_app; right;
      apply list_elem_of_further, list_elem_of_here.
Qed.

(** C2 on the loop of [quiet_start]: the steps of a [SetCharm] to
    [cs:foo-2] that meets no error. *)
Lemma setCharm_steps_witness :
  handle (SetCharm foo2 all_ok) started =
  after [WatcherStop 2%nat; UnitSetCharmURL foo2; SendDidSetCharm;
         UnitWatchConfigSettings; WatcherStop 3%nat; ServiceWatchRelations]
        upgradeChanged (charm_set foo2 started).
Proof.
  refine (proj1 (setCharm_steps started foo2 all_ok 3%nat _) _ _ _ _ _);
    reflexivity.
Defined.

(** ** Invariants of the loop *)

Section Invariant.
(** [P] holds of the states in which the loop waits, [Q] of what it
    emits, along schedules made of events in [E]. *)
Variable P : state -> Prop.
Variable Q : action -> Prop.
Variable E : event -> Prop.

Hypothesis select_keeps : forall ev s r s' t,
  E ev -> P s -> select ev s = Some (r, s', t) ->
  Forall Q t /\ (r = Val tt -> P s').
Hypothesis stop_fine : forall w, Q (WatcherStop w).

Lemma deferred_fine (s : state) : Forall Q (deferred s).
Proof.
  unfold deferred, stop.
  repeat apply Forall_app_2;
    (case_match; [apply Forall_singleton, stop_fine|constructor]).
Qed.

Lemma iterate_keeps (evs : list event) : forall s out t,
  Forall E evs -> P s -> iterate evs s = Some (out, t) ->
  Forall Q t /\ (forall s', out = Running s' -> P s').
Proof.
  induction evs as [|ev evs IH]; intros s out t HE HP H; simpl in H.
  - simplify_eq. split; [constructor|]. by intros s' [= <-].
  - apply Forall_cons in HE as [Hev HE].
    destruct (select ev s) as [[[[[]|x] s1] t1]|] eqn:Hs; [| |done].
    + destruct (select_keeps _ _ _ _ _ Hev HP Hs) as [Ht1 HP1].
      destruct (iterate evs s1) as [[out' t']|] eqn:Hi; [|done].
      simplify_eq. destruct (IH _ _ _ HE (HP1 eq_refl) Hi) as [Ht' Hout].
      split; [by apply Forall_app_2|done].
    + destruct (select_keeps _ _ _ _ _ Hev HP Hs) as [Ht1 _].
      destruct evs; [|done]. simplify_eq.
      split; [apply Forall_app_2; [done|apply deferred_fine]|done].
Qed.
End Invariant.

(** The trace of a run is that of the start-up followed by that of the
    [for]. *)
Lemma loop_inv (o : startup_replies) (evs : list event) (out : outcome) (t : list action) :
  loop o evs = Some (out, t) ->
  (exists s0 t0 t1,
     startup o newFilter = (Val tt, s0, t0) /\
     iterate evs s0 = Some (out, t1) /\ t = t0 ++ t1) \/
  (exists x s0 t0,
     startup o newFilter = (Exit x, s0, t0) /\ evs = [] /\
     out = Stopped x s0 /\ t = t0 ++ deferred s0).
Proof.
  unfold loop. destruct (startup o newFilter) as [[[[]|x] s0] t0] eqn:Hs.
  - destruct (iterate evs s0) as [[out' t1]|] eqn:Hi; [|done].
    intros [= <- <-]. left. by exists s0, t0, t1.
  - destruct evs; [|done]. intros [= <- <-]. right. by exists x, s0, t0.
Qed.

(** ** Relations *)

Lemma existsb_eqb_elem_of (x : Z) (l : list Z) :
  existsb (Z.eqb x) l = true <-> x ∈ l.
Proof.
  rewrite existsb_exists, list_elem_of_In. split.
  - by intros (y & Hy & ->%Z.eqb_eq).
  - intros H. exists x. split; [done|apply Z.eqb_refl].
Qed.

Lemma append_new_spec (ids : list Z) : forall rels,
  NoDup rels ->
  NoDup (append_new rels ids) /\
  rels `prefix_of` append_new rels ids /\
  (forall x, x ∈ append_new rels ids <-> x ∈ rels \/ x ∈ ids).
Proof.
  unfold append_new.
  induction ids as [|id ids IH]; intros rels ND; simpl.
  - split; [done|]. split; [done|]. intros x. rewrite elem_of_nil. tauto.
  - destruct (existsb (Z.eqb id) rels) eqn:Ex.
    + apply existsb_eqb_elem_of in Ex.
      destruct (IH rels ND) as (H1 & H2 & H3). split; [done|]. split; [done|].
      intros x. rewrite H3, elem_of_cons. split; [tauto|].
      intros [?|[->|?]]; tauto.
    + assert (id ∉ rels) as Nin.
      { intros ?%existsb_eqb_elem_of. congruence. }
      assert (NoDup (rels ++ [id])) as ND'.
      { apply NoDup_app. split; [done|]. split; [|apply NoDup_singleton].
        intros x Hx ->%list_elem_of_singleton. done. }
      destruct (IH _ ND') as (H1 & H2 & H3). split; [done|]. split.
      * etrans; [|exact H2]. by apply prefix_app_r.
      * intros x. rewrite H3, elem_of_app, list_elem_of_singleton, elem_of_cons.
        tauto.
Qed.

Lemma strictly_ascending (l : list Z) :
  NoDup l -> Sorted Z.le l -> StronglySorted Z.lt l.
Proof.
  intros ND S. apply Sorted_StronglySorted in S; [|intros ???; lia].
  induction S as [|x l S IH F]; [constructor|].
  apply NoDup_cons in ND as [Nin ND]. constructor; [by apply IH|].
  rewrite Forall_forall in *. intros y Hy.
  assert (x <> y) by (intros ->; done). specialize (F y Hy). lia.
Qed.

Lemma strictly_ascending_NoDup (l : list Z) : StronglySorted Z.lt l -> NoDup l.
Proof.
  induction 1 as [|x l S IH F]; [constructor|].
  apply NoDup_cons. split; [|done].
  intros Hx. rewrite Forall_forall in F. specialize (F x Hx). lia.
Qed.

Lemma sort_Ints_ascending (l : list Z) :
  NoDup l -> StronglySorted Z.lt (sort_Ints l) /\ sort_Ints l ≡ₚ l.
Proof.
  intros ND. unfold sort_Ints.
  pose proof (merge_sort_Permutation Z.le l) as Pm. split; [|done].
  apply strictly_ascending.
  - by rewrite Pm.
  - apply Sorted_merge_sort. intros x y. lia.
Qed.

(** ** The methods, case by case *)

Lemma relationsChanged_unfold (ids : list Z) (s : state) :
  relationsChanged ids s =
  (Val tt,
   match append_new (relations s) ids with
   | [] => set_relations [] s
   | l => set_outRelations ChanOn (set_relations (sort_Ints l) s)
   end, []).
Proof.
  unfold relationsChanged, bind, modify, get, ret. simpl.
  destruct (append_new (relations s) ids) eqn:E; simpl; [done|].
  by destruct s.
Qed.

Lemma upgradeChanged_cases (s : state) :
  upgradeChanged s = disarmed s \/
  (exists avail from,
     life s = Alive /\ url (upgradeFrom s) = Some from /\
     url (upgradeAvailable s) = Some avail /\ avail <> from /\
     upgradeChanged s = armed avail s) \/
  upgradeChanged s = (Exit (Panic "nil pointer dereference"), s, []).
Proof.
  destruct (decide (life s = Alive)) as [L|L];
    [|left; by apply upgradeChanged_not_alive].
  destruct (url (upgradeFrom s)) as [from|] eqn:F;
    [|left; by apply upgradeChanged_no_charm].
  destruct (url (upgradeAvailable s)) as [avail|] eqn:A.
  - rewrite (upgradeChanged_alive s from avail L F A).
    case_bool_decide; [by left|].
    destruct (_ || _); [|by left]. right; left. by exists avail, from.
  - right; right. unfold upgradeChanged, bind, get, panic.
    rewrite F, A. by case_decide.
Qed.

Lemma unitChanged_unfold (r : reply unit_doc) (s : state) :
  unitChanged r s =
  match r with
  | Failed e =>
      (Exit (Return (if IsNotFoundError e then ErrTerminateAgent else e)),
       s, [UnitRefresh])
  | Done d =>
      let s1 := set_f_unit (Some d) s in
      if decide (life s <> unit_life d) then
        match unit_life d with
        | Alive => (Val tt, note_resolved d (set_life Alive s1), [UnitRefresh])
        | Dying =>
            if outUnitDying s
            then (Exit (Panic "close of closed channel"), set_life Dying s1,
                  [UnitRefresh])
            else (Val tt,
                  note_resolved d
                    (set_outUpgrade ChanNil
                       (set_outUnitDying true (set_life Dying s1))),
                  [UnitRefresh; CloseUnitDying])
        | Dead => (Exit (Return ErrTerminateAgent), set_life Dead s1, [UnitRefresh])
        end
      else (Val tt, note_resolved d s1, [UnitRefresh])
  end.
Proof.
  unfold unitChanged, note_resolved, bind, emit, modify, get, ret, fail, panic.
  destruct r as [d|e]; [|by destruct (IsNotFoundError e)]. simpl.
  destruct (decide (life s <> unit_life d)); simpl.
  - destruct (unit_life d); simpl; try done.
    + by repeat case_decide.
    + destruct (outUnitDying s); simpl; [done|]. by repeat case_decide.
  - by repeat case_decide.
Qed.

(** Unfolds the handlers of the loop, keeping the methods folded. *)
Ltac unfold_handlers :=
  cbv [select handle setCharm clearResolved serviceChanged startup
       watchConfigSettings call start
       bind ret get modify emit fail panic] in *.

(** Splits the outcomes of the calls of [upgradeChanged] that are left. *)
Ltac upgrade_cases :=
  repeat match goal with
  | H : upgradeChanged ?s = _ |- _ =>
      let U := fresh "U" in
      destruct (upgradeChanged_cases s) as [U|[(?&?&?&?&?&?&U)|U]];
      rewrite U in H; unfold disarmed, armed in H; clear U
  end.

(** Runs a handler symbolically: one goal for every path through it. *)
Ltac run_cases :=
  unfold_handlers;
  repeat match goal with
  | H : context [unitChanged ?r ?s] |- _ => rewrite (unitChanged_unfold r s) in H
  | H : context [relationsChanged ?i ?s] |- _ =>
      rewrite (relationsChanged_unfold i s) in H
  | H : context [decide ?P] |- _ => destruct (decide P); simplify_eq
  | H : context [bool_decide ?P] |- _ =>
      destruct (bool_decide_reflect P); simplify_eq
  | H : context [match ?x with _ => _ end] |- _ =>
      destruct x eqn:?; simplify_eq
  end;
  upgrade_cases; simplify_eq; unfold note_resolved in *;
  repeat match goal with
  | H : context [decide ?P] |- _ => destruct (decide P)
  end; simplify_eq/=.

(** Every path through the branch [ev] of the [select]. *)
Ltac select_cases H ev :=
  unfold select in H; destruct (ready ev _) eqn:?; [|done];
  apply (inj Some) in H; destruct ev; run_cases.

Lemma unitChanged_untouched (r : reply unit_doc) (s : state) res s' t :
  unitChanged r s = (res, s', t) ->
  untouched s s' /\ Forall (fun a => is_send a = false) t /\
  upgradeAvailable s' = upgradeAvailable s /\
  (res = Val tt -> exists d, r = Done d /\ f_unit s' = Some d).
Proof.
  intros H. run_cases.
  all: repeat split; try done; repeat constructor; eauto.
Qed.

Lemma serviceChanged_untouched (r : reply service_doc) (destroy : reply ()) (s : state) res s' t :
  serviceChanged r destroy s = (res, s', t) ->
  untouched s s' /\ Forall (fun a => is_send a = false) t /\
  f_unit s' = f_unit s /\
  (res = Val tt ->
   url (upgradeAvailable s') <> None /\
   (url (upgradeFrom s) = None -> outUpgrade s' = ChanNil)).
Proof.
  intros H. run_cases.
  all: repeat split; try done; repeat constructor; congruence.
Qed.

(** What start-up leaves behind: no output is armed for the consumer, the
    discard gate is closed, no relation id is pending and nothing has been
    delivered. *)
Lemma startup_state (o : startup_replies) (r : res ()) (s : state) (t : list action) :
  startup o newFilter = (r, s, t) ->
  Forall (fun a => is_send a = false) t /\
  relations s = [] /\
  outConfig s = ChanInit /\ discardConfig s = false /\
  outRelations s = ChanInit /\
  (r = Val tt ->
   outUpgrade s = ChanNil /\ relationsw s <> None /\
   url (upgradeAvailable s) <> None /\
   exists d, first_unit_refresh o = Done d /\ url (upgradeFrom s) = unit_charm d).
Proof.
  intros H. unfold startup in H.
  cbv [bind call emit ret fail panic modify get start watchConfigSettings] in H.
  destruct (st_unit o) as [d0|e0]; simpl in H;
    [|simplify_eq; repeat split; try done; repeat constructor].
  destruct (unitChanged _ _) as [[ru su] tu] eqn:HU.
  apply unitChanged_untouched in HU as (Fu & Tu & Au & Du).
  destruct ru as [[]|x]; simpl in H; cycle 1.
  { simplify_eq. unfold untouched in Fu; simpl in Fu.
    destruct Fu as (-> & -> & -> & -> & _). repeat split; try done.
    by constructor. }
  destruct (Du eq_refl) as (d & Hfirst & Hd).
  destruct (unit_service o) as [[]|e1]; simpl in H; cycle 1.
  { simplify_eq. unfold untouched in Fu; simpl in Fu.
    destruct Fu as (-> & -> & -> & -> & _). repeat split; try done.
    constructor; [done|]. apply Forall_app_2; [done|by repeat constructor]. }
  destruct (serviceChanged _ _ _) as [[rs ss] ts] eqn:HS.
  apply serviceChanged_untouched in HS as (Fs & Ts & Us & Ds).
  unfold untouched in Fu, Fs; simpl in Fu.
  destruct Fu as (Fu1 & Fu2 & Fu3 & Fu4 & Fu5 & _).
  destruct Fs as (Fs1 & Fs2 & Fs3 & Fs4 & Fs5 & _).
  assert (Forall (fun a => is_send a = false)
            (StateUnit :: tu ++ UnitService :: ts)) as T0.
  { constructor; [done|]. apply Forall_app_2; [done|by constructor]. }
  destruct rs as [[]|x]; simpl in H; cycle 1.
  { simplify_eq. rewrite ?app_nil_r. repeat split; try done; try congruence. }
  destruct (Ds eq_refl) as (Av & Off).
  assert (outUpgrade ss = ChanNil) as Off' by (apply Off; by rewrite Fu5).
  rewrite Us, Hd in H.
  destruct (unit_charm d) as [curl|] eqn:Hc; simpl in H;
    [destruct (first_watch_config o) as [[]|e2]; simpl in H|];
    simplify_eq; simpl; rewrite ?app_nil_r.
  all: repeat split; try done; try congruence.
  all: try (exists d; split; [done|]; simpl; by rewrite ?Fs5, ?Fu5, Hc).
  all: repeat first [done | constructor | apply Forall_app_2].
Qed.

(** ** Relations events *)

Lemma select_relations (ev : event) (s : state) r s' t :
  True -> relations_sorted s -> select ev s = Some (r, s', t) ->
  Forall sends_sorted t /\ (r = Val tt -> relations_sorted s').
Proof.
  intros _ HP H. unfold relations_sorted in *.
  select_cases H ev.
  all: try (split; [by repeat constructor|done]).
  all: try (split; [by repeat constructor|intros; simpl; constructor]).
  all: split; [constructor|intros _].
  all: match goal with H : append_new _ _ = _ |- _ => rewrite <- H end.
  all: apply sort_Ints_ascending, append_new_spec, strictly_ascending_NoDup, HP.
Qed.

(** C7.  Every list delivered on the relations channel is strictly
    ascending, hence free of duplicates.  [relationsChanged] appends to the
    pending list the ids it does not hold yet, one copy of each, sorts the
    list when it is not empty and arms the output; a delivery sends the
    pending list and clears it. *)
Theorem relations_events_ascending (o : startup_replies) (evs : list event) (out : outcome) (t : list action) :
  loop o evs = Some (out, t) ->
  (forall ids, SendRelations ids ∈ t -> StronglySorted Z.lt ids /\ NoDup ids) /\
  (forall s', out = Running s' ->
     StronglySorted Z.lt (relations s') /\
     (forall ids : list Z,
        let l := append_new (relations s') ids in
        NoDup l /\ relations s' `prefix_of` l /\
        (forall x, x ∈ l <-> x ∈ relations s' \/ x ∈ ids) /\
        sort_Ints l ≡ₚ l /\ StronglySorted Z.lt (sort_Ints l) /\
        handle (RelationsChange ids) s' =
        (Val tt,
         match l with
         | [] => set_relations [] s'
         | _ => set_outRelations ChanOn (set_relations (sort_Ints l) s')
         end, [])) /\
     handle DeliverRelations s' =
     (Val tt, set_relations [] (set_outRelations ChanNil s'),
      [SendRelations (relations s')])).
Proof.
  intros H.
  assert (Forall sends_sorted t /\ forall s', out = Running s' -> relations_sorted s')
    as [Ht Hout].
  { apply loop_inv in H as [(s0 & t0 & t1 & Hs & Hi & ->)|(x & s0 & t0 & Hs & -> & -> & ->)].
    - apply startup_state in Hs as (T0 & R0 & _).
      destruct (iterate_keeps relations_sorted sends_sorted (fun _ => True)
                  select_relations (fun _ => I) evs s0 out t1) as [T1 P1]; try done.
      + by apply Forall_true.
      + unfold relations_sorted. rewrite R0. constructor.
      + split; [|done]. apply Forall_app_2; [|done].
        eapply Forall_impl; [exact T0|]. by intros [].
    - apply startup_state in Hs as (T0 & _). split; [|done].
      apply Forall_app_2.
      + eapply Forall_impl; [exact T0|]. by intros [].
      + by apply deferred_fine. }
  split.
  - intros ids Hin. rewrite Forall_forall in Ht. specialize (Ht _ Hin).
    split; [done|by apply strictly_ascending_NoDup].
  - intros s' ->. specialize (Hout s' eq_refl). unfold relations_sorted in Hout.
    split; [done|]. split; [|done]. intros ids l.
    pose proof (strictly_ascending_NoDup _ Hout) as ND.
    destruct (append_new_spec ids _ ND) as (H1 & H2 & H3).
    destruct (sort_Ints_ascending _ H1) as (H4 & H5).
    repeat split; try done; try apply H3.
    simpl. rewrite relationsChanged_unfold. subst l.
    by destruct (append_new _ _).
Qed.

(** C7 on the schedule of the spec: [3, 1] then [2, 1] are notified before
    the consumer reads, and [1, 2, 3] is delivered. *)
Lemma relations_events_ascending_witness :
  SendRelations [1; 2; 3] ∈
    trace_of (loop quiet_start
                [RelationsChange [3; 1]; RelationsChange [2; 1]; DeliverRelations]) /\
  StronglySorted Z.lt [1; 2; 3].
Proof.
  split; [vm_compute; do 8 apply list_elem_of_further; apply list_elem_of_here|].
  eapply (proj1 (relations_events_ascending quiet_start
    [RelationsChange [3; 1]; RelationsChange [2; 1]; DeliverRelations] _ _ _)).
  Unshelve.
  4: { vm_compute. reflexivity. }
  do 8 apply list_elem_of_further. apply list_elem_of_here.
Defined.

(** ** Config events *)

Lemma select_config (ev : event) (s : state) r s' t :
  select ev s = Some (r, s', t) ->
  outConfig s' = config_after ev (outConfig s) /\
  discardConfig s' = discardConfig s || is_ConfigChange ev.
Proof.
  intros H. select_cases H ev.
  all: by rewrite ?orb_false_r, ?orb_true_r.
Qed.

Lemma config_pending_after (ev : event) (c : chan) (b : bool) :
  (c = ChanOn <-> b = true) ->
  (config_after ev c = ChanOn <-> config_pending [ev] b = true).
Proof. intros H. by destruct ev. Qed.

Lemma config_pending_cons (ev : event) (evs : list event) (b : bool) :
  config_pending (ev :: evs) b = config_pending evs (config_pending [ev] b).
Proof. by destruct ev. Qed.

Lemma config_pending_seen (evs : list event) : forall b,
  config_pending evs b = true -> b = true \/ config_seen evs = true.
Proof.
  induction evs as [|ev evs IH]; intros b H; [by left|].
  rewrite config_pending_cons in H. apply IH in H as [H|H].
  - unfold config_seen. destruct ev; simpl in *; auto; done.
  - right. unfold config_seen in *. simpl. by rewrite H, orb_true_r.
Qed.

Lemma iterate_config (evs : list event) : forall s s' t b,
  iterate evs s = Some (Running s', t) ->
  (outConfig s = ChanOn <-> b = true) ->
  (outConfig s' = ChanOn <-> config_pending evs b = true) /\
  discardConfig s' = discardConfig s || config_seen evs.
Proof.
  induction evs as [|ev evs IH]; intros s s' t b H B; simpl in H.
  - simplify_eq. by rewrite orb_false_r.
  - destruct (select ev s) as [[[[[]|x] s1] t1]|] eqn:Hs; [|by destruct evs|done].
    destruct (iterate evs s1) as [[out' t']|] eqn:Hi; [|done]. simplify_eq.
    apply select_config in Hs as [C1 D1].
    rewrite config_pending_cons.
    destruct (IH _ _ _ (config_pending [ev] b) Hi) as [C2 D2].
    { rewrite C1. by apply config_pending_after. }
    split; [done|]. rewrite D2, D1. unfold config_seen. simpl. by rewrite orb_assoc.
Qed.

(** C4, as the claim has it, fails: [SetCharm] leaves the config output
    alone, so a config event armed under the old charm is still armed, and
    delivered, after the charm has changed. *)
Lemma config_event_survives_setCharm :
  exists s t,
    loop quiet_start [ConfigChange; SetCharm foo2 all_ok] = Some (Running s, t) /\
    outConfig s = ChanOn /\
    select DeliverConfig s = Some (Val tt, set_outConfig ChanNil s, [SendConfig]).
Proof. eexists _, _. split; [vm_compute; reflexivity|]. by vm_compute. Qed.

(** C4, amended.  Where the loop waits after the schedule [evs], the
    config output is armed exactly when a config notification has been
    observed since the last delivery or discard.  A [SetCharm] request
    leaves the output as it is, armed or not; an armed output is disarmed
    by its delivery and by [DiscardConfigEvent], which the loop then
    accepts. *)
Theorem config_event_armed (o : startup_replies) (evs : list event) (s : state) (t : list action) :
  loop o evs = Some (Running s, t) ->
  (outConfig s = ChanOn <-> config_pending evs false = true) /\
  (forall curl r res s' t',
     select (SetCharm curl r) s = Some (res, s', t') -> outConfig s' = outConfig s) /\
  (outConfig s = ChanOn ->
   select DeliverConfig s = Some (Val tt, set_outConfig ChanNil s, [SendConfig]) /\
   select DiscardConfigEvent s = Some (Val tt, set_outConfig ChanNil s, [])).
Proof.
  intros H.
  apply loop_inv in H as [(s0 & t0 & t1 & Hs & Hi & ->)|(?&?&?&?&?&?&?)]; [|done].
  apply startup_state in Hs as (_ & _ & C0 & D0 & _).
  destruct (iterate_config _ _ _ _ false Hi) as [C D]; [by rewrite C0|].
  split; [done|]. split.
  - intros curl r res s' t' Hs. by apply select_config in Hs as [-> _].
  - intros On. unfold select. simpl. rewrite bool_decide_eq_true_2 by done.
    split; [done|]. rewrite D, D0. simpl.
    apply C, config_pending_seen in On as [?| ->]; done.
Qed.

(** C4 on a schedule: a notification, a discard, a notification again and
    a [SetCharm]; the last notification is still pending. *)
Lemma config_event_armed_witness :
  exists s t,
    loop quiet_start [ConfigChange; DiscardConfigEvent; ConfigChange;
                      SetCharm foo2 all_ok] = Some (Running s, t) /\
    outConfig s = ChanOn.
Proof.
  eexists _, _. split; [vm_compute; reflexivity|].
  refine (proj2 (proj1 (config_event_armed quiet_start
    [ConfigChange; DiscardConfigEvent; ConfigChange; SetCharm foo2 all_ok]
    _ _ _)) _); [vm_compute; reflexivity|reflexivity].
Defined.

(** C10.  Where the loop waits after the schedule [evs], the discard gate
    is open exactly when [evs] holds a config notification.  Once open it
    stays open whatever follows, a [SetCharm] that restarts the config
    watcher included, and [DiscardConfigEvent] is accepted; while it is
    closed the loop does not receive the request, and the call returns
    only when the tomb is dying. *)
Theorem discard_gate (o : startup_replies) (evs : list event) (s : state) (t : list action) :
  loop o evs = Some (Running s, t) ->
  discardConfig s = config_seen evs /\
  (config_seen evs = true ->
   select DiscardConfigEvent s = Some (Val tt, set_outConfig ChanNil s, []) /\
   DiscardConfigEvent_returns false s = true /\
   forall evs' s' t',
     iterate evs' s = Some (Running s', t') -> discardConfig s' = true) /\
  (config_seen evs = false ->
   select DiscardConfigEvent s = None /\
   forall dying, DiscardConfigEvent_returns dying s = dying).
Proof.
  intros H.
  apply loop_inv in H as [(s0 & t0 & t1 & Hs & Hi & ->)|(?&?&?&?&?&?&?)]; [|done].
  apply startup_state in Hs as (_ & _ & C0 & D0 & _).
  destruct (iterate_config _ _ _ _ false Hi) as [_ D]; [by rewrite C0|].
  rewrite D0 in D. simpl in D. split; [done|].
  unfold DiscardConfigEvent_returns, select. simpl. rewrite D. split.
  - intros E. rewrite E in *. split; [done|]. split; [done|].
    intros evs' s' t' Hi'.
    destruct (iterate_config _ _ _ _ (bool_decide (outConfig s = ChanOn)) Hi')
      as [_ ->]; [by rewrite bool_decide_eq_true|].
    by rewrite D.
  - intros E. rewrite E in *. split; [done|]. intros dying. by rewrite orb_false_r.
Qed.

(** C10 on a schedule: the gate opened by a notification is open after a
    [SetCharm] has restarted the config watcher. *)
Lemma discard_gate_witness :
  exists s t,
    loop quiet_start [ConfigChange; SetCharm foo2 all_ok] = Some (Running s, t) /\
    select DiscardConfigEvent s = Some (Val tt, set_outConfig ChanNil s, []).
Proof.
  eexists _, _. split; [vm_compute; reflexivity|].
  refine (proj1 (proj1 (proj2 (discard_gate quiet_start
    [ConfigChange; SetCharm foo2 all_ok] _ _ _)) _));
    [vm_compute; reflexivity|reflexivity].
Defined.

(** ** Upgrade events *)

Lemma select_may_arm (ev : event) (s : state) r s' t :
  select ev s = Some (r, s', t) ->
  outUpgrade s' = ChanOn -> outUpgrade s = ChanOn \/ may_arm ev = true.
Proof. intros H. select_cases H ev; auto; done. Qed.

Lemma iterate_may_arm (evs : list event) : forall s s' t,
  iterate evs s = Some (Running s', t) ->
  outUpgrade s' = ChanOn ->
  outUpgrade s = ChanOn \/ exists ev, ev ∈ evs /\ may_arm ev = true.
Proof.
  induction evs as [|ev evs IH]; intros s s' t H On; simpl in H.
  - simplify_eq. by left.
  - destruct (select ev s) as [[[[[]|x] s1] t1]|] eqn:Hs; [|by destruct evs|done].
    destruct (iterate evs s1) as [[out' t']|] eqn:Hi; [|done]. simplify_eq.
    destruct (IH _ _ _ Hi On) as [On1|(ev' & Hin & Hev)].
    + destruct (select_may_arm _ _ _ _ _ Hs On1) as [?|Hev]; [by left|].
      right. exists ev. split; [apply list_elem_of_here|done].
    + right. exists ev'. split; [by apply list_elem_of_further|done].
Qed.

(** C9.  When the start-up phase is over and nothing else has happened,
    the upgrade output is nil although [f.upgradeFrom.url] is by then the
    charm URL of the unit, whatever the service announces.  After that, an
    armed upgrade output means that a service notification, a [SetCharm]
    or a [WantUpgradeEvent] has been handled. *)
Theorem upgrade_disarmed_after_startup (o : startup_replies) (evs : list event) (s : state) (t : list action) :
  loop o evs = Some (Running s, t) ->
  (evs = [] ->
   outUpgrade s = ChanNil /\
   exists d, first_unit_refresh o = Done d /\ url (upgradeFrom s) = unit_charm d) /\
  (outUpgrade s = ChanOn -> exists ev, ev ∈ evs /\ may_arm ev = true).
Proof.
  intros H.
  apply loop_inv in H as [(s0 & t0 & t1 & Hs & Hi & ->)|(?&?&?&?&?&?&?)]; [|done].
  apply startup_state in Hs as (_ & _ & _ & _ & _ & Hs).
  destruct (Hs eq_refl) as (Off & _ & _ & Hd). split.
  - intros ->. simpl in Hi. by simplify_eq.
  - intros On. destruct (iterate_may_arm _ _ _ _ Hi On) as [On0|?]; [|done].
    congruence.
Qed.

(** C9 on [quiet_start]: the unit runs [cs:foo-1], the service announces
    [cs:foo-2], and the upgrade output is nil when start-up is over. *)
Lemma upgrade_disarmed_after_startup_witness :
  url (upgradeFrom started) = Some foo1 /\
  url (upgradeAvailable started) = Some foo2 /\
  outUpgrade started = ChanNil.
Proof.
  split; [reflexivity|]. split; [reflexivity|].
  refine (proj1 (proj1 (upgrade_disarmed_after_startup quiet_start [] started
    _ _) eq_refl)).
  vm_compute. reflexivity.
Defined.

Lemma select_adopted (curl : URL) (ev : event) (s : state) r s' t :
  is_SetCharm ev = false -> charm_adopted curl s ->
  select ev s = Some (r, s', t) ->
  Forall (upgrade_differs curl) t /\ (r = Val tt -> charm_adopted curl s').
Proof.
  intros E [F A] H. unfold charm_adopted in *.
  select_cases H ev.
  all: split; [try by repeat constructor|intros _; split; try done].
  all: try (intros _; eexists; split; [done|]; congruence).
  all: try congruence.
  apply bool_decide_eq_true in Heqb. constructor; [exact (A Heqb)|constructor].
Qed.

Lemma select_setCharm (curl : URL) (r0 : setCharm_replies) (s : state) r s' t :
  select (SetCharm curl r0) s = Some (r, s', t) ->
  Forall (upgrade_differs curl) t /\ (r = Val tt -> charm_adopted curl s').
Proof.
  intros H. unfold select in H. simpl ready in H. apply (inj Some) in H.
  unfold charm_adopted. run_cases.
  all: split; [by repeat constructor|try done; intros _; split; try done].
  all: try (intros _; eexists; split; [done|]; congruence).

Qed.

(** C5.  From any state in which the loop takes a [SetCharm(curl)]
    request, and along any schedule without another [SetCharm]:
    [f.upgradeFrom.url] is [curl] wherever the loop waits afterwards, and
    every upgrade event delivered holds a URL that is not [curl]. *)
Theorem setCharm_then_upgrades_differ (s : state) (curl : URL) (r : setCharm_replies) (evs : list event) (out : outcome) (t : list action) :
  iterate (SetCharm curl r :: evs) s = Some (out, t) ->
  Forall (fun ev => is_SetCharm ev = false) evs ->
  (forall s', out = Running s' -> url (upgradeFrom s') = Some curl) /\
  (forall u, SendUpgrade u ∈ t -> exists a, u = Some a /\ a <> curl).
Proof.
  intros H E. cbn [iterate] in H.
  destruct (select (SetCharm curl r) s) as [[[[[]|x] s1] t1]|] eqn:Hs; [| |done].
  - destruct (iterate evs s1) as [[out' t']|] eqn:Hi; [|done]. simplify_eq.
    apply select_setCharm in Hs as [T1 P1].
    destruct (iterate_keeps (charm_adopted curl) (upgrade_differs curl)
                (fun ev => is_SetCharm ev = false) (select_adopted curl)
                (fun _ => I) evs s1 out t' E (P1 eq_refl) Hi) as [T2 P2].
    split.
    + intros s' ->. by destruct (P2 s' eq_refl).
    + intros u Hin. pose proof (Forall_app_2 _ _ _ T1 T2) as T.
      rewrite Forall_forall in T. exact (T _ Hin).
  - destruct evs; [|done]. simplify_eq.
    apply select_setCharm in Hs as [T1 _]. split; [done|].
    intros u Hin.
    pose proof (Forall_app_2 _ _ _ T1
                  (deferred_fine (upgrade_differs curl) (fun _ => I) s1)) as T.
    rewrite Forall_forall in T. exact (T _ Hin).
Qed.

(** C5 on a schedule: after [SetCharm(cs:foo-2)] the service announces
    [cs:foo-3], which is then delivered as an upgrade. *)
Lemma setCharm_then_upgrades_differ_witness :
  exists s' t,
    iterate [SetCharm foo2 all_ok;
             ServiceChange (Done (ServiceDoc Alive foo3 false)) (Done tt);
             DeliverUpgrade] started = Some (Running s', t) /\
    SendUpgrade (Some foo3) ∈ t /\
    url (upgradeFrom s') = Some foo2.
Proof.
  eexists _, _. split; [vm_compute; reflexivity|].
  split; [repeat first [apply list_elem_of_here|apply list_elem_of_further]|].
  refine (proj1 (setCharm_then_upgrades_differ started foo2 all_ok
    [ServiceChange (Done (ServiceDoc Alive foo3 false)) (Done tt); DeliverUpgrade]
    _ _ _ _) _ eq_refl).
  - vm_compute. reflexivity.
  - by repeat constructor.
Defined.


(** ** A dying unit *)

Lemma select_dying (ev : event) (s : state) r s' t :
  stays_dying ev -> unit_dying s -> select ev s = Some (r, s', t) ->
  Forall no_upgrade t /\ (r = Val tt -> unit_dying s').
Proof.
  intros E (L & C & U) H. unfold unit_dying, stays_dying in *.
  select_cases H ev.
  all: try congruence.
  all: split; [try by repeat constructor|try done].
  by apply bool_decide_eq_true in Heqb.
Qed.

Lemma select_other_outputs (ev : event) (l : Life) (s : state) :
  other_outputs ev = true ->
  select ev (set_life l s) = with_life l <$> select ev s.
Proof.
  intros O. unfold select.
  destruct ev; try done; simpl.
  all: try rewrite !relationsChanged_unfold; simpl.
  all: try (case_bool_decide; done).
  all: try (destruct (discardConfig s); done).
  all: try (destruct (append_new _ _); done).
  all: unfold_handlers; simpl.
  all: try (case_decide; done).
Qed.

(** C8.  When a unit notification takes [f.life] from alive to dying,
    [f.outUnitDying] is closed and the upgrade output set to nil.  From
    then on, as long as the backend does not report the unit alive again,
    the loop never closes the channel a second time, never arms the
    upgrade output and never delivers an upgrade.  The branches for config,
    relations and resolved events do not look at [f.life], and a unit
    notification that leaves [f.life] as it is stores and arms a new
    resolved mode as for a unit that is alive. *)
Theorem dying_unit_disarms_upgrade (s : state) (d : unit_doc) :
  life s = Alive -> outUnitDying s = false -> unit_life d = Dying ->
  exists s1,
    select (UnitChange (Done d)) s =
      Some (Val tt, s1, [UnitRefresh; CloseUnitDying]) /\
    unit_dying s1 /\ outUpgrade s1 = ChanNil /\
    (forall evs out t,
       Forall stays_dying evs -> iterate evs s1 = Some (out, t) ->
       Forall no_upgrade t /\ (forall s', out = Running s' -> unit_dying s')) /\
    (forall ev l s2,
       other_outputs ev = true ->
       select ev (set_life l s2) = with_life l <$> select ev s2) /\
    (forall s2 d2,
       unit_life d2 = life s2 ->
       select (UnitChange (Done d2)) s2 =
       Some (Val tt, note_resolved d2 (set_f_unit (Some d2) s2), [UnitRefresh])).
Proof.
  intros L C D.
  exists (note_resolved d
            (set_outUpgrade ChanNil
               (set_outUnitDying true (set_life Dying (set_f_unit (Some d) s))))).
  assert (unit_dying
            (note_resolved d
               (set_outUpgrade ChanNil
                  (set_outUnitDying true (set_life Dying (set_f_unit (Some d) s))))))
    as UD.
  { unfold unit_dying, note_resolved. by repeat case_decide. }
  split; [|split; [done|split; [|split; [|split]]]].
  - unfold select. simpl. rewrite unitChanged_unfold. simpl.
    rewrite L, D, C. by case_decide.
  - unfold note_resolved. by repeat case_decide.
  - intros evs out t E H.
    exact (iterate_keeps unit_dying no_upgrade stays_dying select_dying
             (fun _ => I) evs _ out t E UD H).
  - intros ev l s2. apply select_other_outputs.
  - intros s2 d2 E. unfold select. simpl. rewrite unitChanged_unfold. simpl.
    case_decide; [congruence|done].
Qed.

(** C8 on the loop of [quiet_start], an upgrade to [cs:foo-2] being
    armed when the unit is reported dying. *)
Lemma dying_unit_disarms_upgrade_witness :
  outUpgrade upgrade_armed = ChanOn /\
  exists s1,
    select (UnitChange (Done (UnitDoc Dying ResolvedNone (Some foo1))))
           upgrade_armed
    = Some (Val tt, s1, [UnitRefresh; CloseUnitDying]) /\
    unit_dying s1 /\ outUpgrade s1 = ChanNil.
Proof.
  split; [reflexivity|].
  destruct (dying_unit_disarms_upgrade upgrade_armed
              (UnitDoc Dying ResolvedNone (Some foo1))
              eq_refl eq_refl eq_refl) as (s1 & H1 & H2 & H3 & _).
  by exists s1.
Defined.

(** ** Resolved events *)

(** C3.  The doc comment of [ResolvedEvents] has it that "a ResolvedNone
    state will never generate events", yet [unitChanged] leaves the
    resolved output armed when the mode it reads back has changed to
    [ResolvedNone]: a unit reported with [ResolvedRetryHooks] and then,
    before the consumer has read, with [ResolvedNone], makes the loop
    deliver [ResolvedNone]. *)
Theorem resolved_none_delivered :
  exists s t,
    loop quiet_start
      [UnitChange (Done (UnitDoc Alive ResolvedRetryHooks (Some foo1)));
       UnitChange (Done (UnitDoc Alive ResolvedNone (Some foo1)));
       DeliverResolved] = Some (Running s, t) /\
    SendResolved ResolvedNone ∈ t.
Proof.
  eexists _, _. split; [vm_compute; reflexivity|].
  repeat first [apply list_elem_of_here|apply list_elem_of_further].
Qed.

(** ** The scenarios of the specification, run on the model *)

(** Upgrade gated on baseline: nothing can be read before
    [WantUpgradeEvent]; after [WantUpgradeEvent(false)] the consumer reads
    [cs:foo-2]. *)
Example upgrade_gated_on_baseline :
  loop quiet_start [DeliverUpgrade] = None /\
  List.filter is_send
    (trace_of (loop quiet_start [WantUpgradeEvent false; DeliverUpgrade]))
  = [SendUpgrade (Some foo2)].
Proof. split; by vm_compute. Qed.

(** Forced-only policy: an unforced [cs:foo-2] is not offered, a forced
    [cs:foo-3] is delivered. *)
Example forced_only_policy :
  loop quiet_start
    [WantUpgradeEvent true;
     ServiceChange (Done (ServiceDoc Alive foo2 false)) (Done tt);
     DeliverUpgrade] = None /\
  List.filter is_send
    (trace_of (loop quiet_start
       [WantUpgradeEvent true;
        ServiceChange (Done (ServiceDoc Alive foo2 false)) (Done tt);
        ServiceChange (Done (ServiceDoc Alive foo3 true)) (Done tt);
        DeliverUpgrade]))
  = [SendUpgrade (Some foo3)].
Proof. split; by vm_compute. Qed.

(** [ClearResolved]: a resolved event is read, asked for and read again;
    once the flag is cleared, asking again offers nothing. *)
Example clear_resolved_scenario :
  let retry := UnitDoc Alive ResolvedRetryHooks (Some foo1) in
  let cleared := UnitDoc Alive ResolvedNone (Some foo1) in
  List.filter is_send
    (trace_of (loop quiet_start
       [UnitChange (Done retry); DeliverResolved;
        WantResolvedEvent; DeliverResolved]))
  = [SendResolved ResolvedRetryHooks; SendResolved ResolvedRetryHooks] /\
  loop quiet_start
    [UnitChange (Done retry); DeliverResolved;
     ClearResolved (ClearResolvedReplies (Done tt) (Done cleared) true);
     WantResolvedEvent; DeliverResolved] = None.
Proof. split; by vm_compute. Qed.

(** Relations accumulate and are sorted; a second read finds nothing. *)
Example relations_accumulate :
  List.filter is_send
    (trace_of (loop quiet_start
       [RelationsChange [3; 1]; RelationsChange [2; 1]; DeliverRelations]))
  = [SendRelations [1; 2; 3]] /\
  loop quiet_start
    [RelationsChange [3; 1]; RelationsChange [2; 1]; DeliverRelations;
     DeliverRelations] = None.
Proof. split; by vm_compute. Qed.

(** * Further properties of the filter *)

(** ** Case analysis that keeps the upgrade policy *)

Lemma upgradeChanged_policy (s : state) :
  upgradeChanged s = disarmed s \/
  (exists avail from,
     life s = Alive /\ url (upgradeFrom s) = Some from /\
     url (upgradeAvailable s) = Some avail /\ avail <> from /\
     force (upgradeAvailable s) || negb (force (upgradeFrom s)) = true /\
     upgradeChanged s = armed avail s) \/
  (url (upgradeAvailable s) = None /\
   upgradeChanged s = (Exit (Panic "nil pointer dereference"), s, [])).
Proof.
  destruct (decide (life s = Alive)) as [L|L];
    [|left; by apply upgradeChanged_not_alive].
  destruct (url (upgradeFrom s)) as [from|] eqn:F;
    [|left; by apply upgradeChanged_no_charm].
  destruct (url (upgradeAvailable s)) as [avail|] eqn:A.
  - rewrite (upgradeChanged_alive s from avail L F A).
    case_bool_decide; [by left|].
    destruct (_ || _) eqn:Pol; [|by left]. right; left. by exists avail, from.
  - right; right. split; [done|]. unfold upgradeChanged, bind, get, panic.
    rewrite F, A. by case_decide.
Qed.

(** As [run_cases], the policy kept where [upgradeChanged] arms. *)
Ltac run_cases_policy :=
  unfold_handlers;
  repeat match goal with
  | H : context [unitChanged ?r ?s] |- _ => rewrite (unitChanged_unfold r s) in H
  | H : context [relationsChanged ?i ?s] |- _ =>
      rewrite (relationsChanged_unfold i s) in H
  | H : context [decide ?P] |- _ => destruct (decide P); simplify_eq
  | H : context [bool_decide ?P] |- _ =>
      destruct (bool_decide_reflect P); simplify_eq
  | H : context [match ?x with _ => _ end] |- _ =>
      destruct x eqn:?; simplify_eq
  end;
  repeat match goal with
  | H : upgradeChanged ?s = _ |- _ =>
      let U := fresh "U" in
      destruct (upgradeChanged_policy s) as [U|[(?&?&?&?&?&?&?&U)|[? U]]];
      rewrite U in H; unfold disarmed, armed in H; clear U
  end;
  simplify_eq; unfold note_resolved in *;
  repeat match goal with
  | H : context [decide ?P] |- _ => destruct (decide P)
  end; simplify_eq/=;
  repeat match goal with
  | H : ¬ (_ <> _) |- _ => apply dec_stable in H
  end.

Ltac select_cases_policy H ev :=
  unfold select in H; destruct (ready ev _) eqn:?; [|done];
  apply (inj Some) in H; destruct ev; run_cases_policy.

Lemma select_coherent (ev : event) (s : state) r s' t :
  True -> coherent s -> select ev s = Some (r, s', t) ->
  Forall (fun _ => True) t /\ (r = Val tt -> coherent s').
Proof.
  intros _ (d & U & L & R & N) H. split; [by apply Forall_true|].
  unfold coherent. select_cases_policy H ev.
  all: try done.
  all: intros _; eexists; repeat split; try done; try congruence.
Qed.

Lemma select_due (ev : event) (s : state) r s' t :
  True -> upgrade_armed_due s -> select ev s = Some (r, s', t) ->
  Forall upgrade_not_nil t /\ (r = Val tt -> upgrade_armed_due s').
Proof.
  intros _ A H. unfold upgrade_armed_due, upgrade_due in *.
  select_cases_policy H ev.
  all: try (split; [by repeat constructor|done]).
  all: try (split; [by repeat constructor|];
            intros _ ?; split; [done|]; eexists _, _; repeat split;
            done || congruence).
  all: try (split; [by repeat constructor|];
            intros _ On; destruct (A On) as (?&?&?&?&?&?&?&?);
            split; [congruence|eauto 10]).
  apply bool_decide_eq_true in Heqb.
  destruct (A Heqb) as (_ & ? & ? & _ & _ & _ & _ & ->).
  split; [by repeat constructor|done].
Qed.

(** ** What one branch of the select keeps *)

Lemma append_new_nil (ids : list Z) : forall rels,
  append_new rels ids = [] -> rels = [].
Proof.
  unfold append_new. induction ids as [|id ids IH]; intros rels H; [done|].
  simpl in H. destruct (existsb _ _); [by apply IH|].
  apply IH in H. by destruct rels.
Qed.

Lemma sort_Ints_nil (l : list Z) : sort_Ints l = [] -> l = [].
Proof.
  intros H. apply Permutation_nil_r. rewrite <- H. unfold sort_Ints.
  by rewrite merge_sort_Permutation.
Qed.

Lemma select_relations_armed (ev : event) (s : state) r s' t :
  True -> relations_armed s -> select ev s = Some (r, s', t) ->
  Forall sends_some t /\ (r = Val tt -> relations_armed s').
Proof.
  intros _ A H. unfold relations_armed in *.
  select_cases H ev.
  all: try (split; [by repeat constructor|done]).
  all: try (split; [by repeat constructor|intros _; split; done]).
  - apply append_new_nil in Heql. rewrite Heql in A.
    split; [constructor|done].
  - split; [constructor|]. intros _. split; [|done].
    by intros _ ?%sort_Ints_nil.
  - apply bool_decide_eq_true, A in Heqb. split; [|done].
    constructor; [|constructor]. by destruct (relations s).
Qed.

Lemma select_arms (o : output) (ev : event) (s : state) r s' t :
  select ev s = Some (r, s', t) ->
  target o s' = ChanOn -> target o s = ChanOn \/ arms o ev = true.
Proof.
  intros H. select_cases H ev; destruct o; simpl; auto; done.
Qed.

Lemma select_cleared (ev : event) (s : state) r s' t :
  reads_unit ev = false -> resolved_cleared s -> select ev s = Some (r, s', t) ->
  Forall no_resolved t /\ (r = Val tt -> resolved_cleared s').
Proof.
  intros E [R O] H. unfold resolved_cleared in *.
  select_cases H ev.
  all: try (split; [by repeat constructor|done]).
  by apply bool_decide_eq_true in Heqb.
Qed.

Lemma select_lively (l : Life) (ev : event) (s : state) r s' t :
  lively l s ->
  match reported_life ev with Some l' => life_le l l' = true | None => True end ->
  select ev s = Some (r, s', t) ->
  (forall msg, r <> Exit (Panic msg)) /\
  (r = Val tt -> lively (default l (reported_life ev)) s').
Proof.
  intros (L & A & R & C) M H. unfold lively in *.
  select_cases_policy H ev.
  all: repeat match goal with
       | H : _ = Done _ |- _ => rewrite H in *
       | H : _ = Failed _ |- _ => rewrite H in *
       end; simpl in *.
  all: try congruence.
  all: try (split; [done|]; intros _; repeat split; done || congruence).
  all: try (split; [done|]; done).
  all: repeat match goal with H : unit_life _ = _ |- _ => rewrite H in * end.
  all: try (destruct (life s); simplify_eq/=; done).
  all: exfalso; auto.
Qed.

Ltac accounted_cases A :=
  let w := fresh "w" in let Hw := fresh "Hw" in let Hlt := fresh "Hlt" in
  intros w Hw;
  match type of A with
  | forall _, (_ < next_watcher ?s)%nat -> _ =>
      let Hc := fresh "Hc" in
      assert (w < next_watcher s \/ w = next_watcher s \/
              w = S (next_watcher s))%nat as Hc by lia;
      destruct Hc as [Hlt|[Hc|Hc]];
      [destruct (A w Hlt) as [[?|[?|[?|?]]]|?]; simplify_eq
      |subst w|subst w]
  end;
  try lia;
  first [ by (left; auto 6)
        | right; apply elem_of_app;
          first [ by left
                | right;
                  repeat first [apply list_elem_of_here
                               |apply list_elem_of_further] ] ].

Lemma select_accounted (T : list action) (ev : event) (s : state) r s' t :
  accounted T s -> select ev s = Some (r, s', t) -> accounted (T ++ t) s'.
Proof.
  intros A H. unfold accounted, held in *.
  select_cases H ev.
  all: try (intros w Hw; destruct (A w Hw) as [Hh|Hs];
            [by left|right; apply elem_of_app; by left]).
  all: try accounted_cases A.
Qed.

(** ** Start-up *)

Lemma unitChanged_first (r : reply unit_doc) (s : state) res s' t :
  unitChanged r s = (res, s', t) ->
  life s = Alive -> outUnitDying s = false ->
  unitw s' = unitw s /\ servicew s' = servicew s /\
  next_watcher s' = next_watcher s /\
  (forall msg, res <> Exit (Panic msg)) /\
  (res = Val tt ->
   exists d, r = Done d /\ f_unit s' = Some d /\ life s' = unit_life d /\
             resolved s' = unit_resolved d /\ life s' <> Dead /\
             (outUnitDying s' = true -> life s' = Dying)).
Proof.
  intros H L C. run_cases_policy.
  all: repeat split; try done.
  all: intros _; eexists; repeat split; try done; congruence.
Qed.

Lemma serviceChanged_rest (r : reply service_doc) (destroy : reply ()) (s : state) res s' t :
  serviceChanged r destroy s = (res, s', t) ->
  unitw s' = unitw s /\ servicew s' = servicew s /\
  next_watcher s' = next_watcher s /\
  f_unit s' = f_unit s /\ life s' = life s /\ resolved s' = resolved s /\
  outUnitDying s' = outUnitDying s /\
  (forall msg, res <> Exit (Panic msg)).
Proof.
  intros H. run_cases_policy.
  all: repeat split; done.
Qed.

Lemma startup_unit (o : startup_replies) (r : res ()) (s : state) (t : list action) :
  startup o newFilter = (r, s, t) ->
  accounted t s /\ (forall msg, r <> Exit (Panic msg)) /\
  (r = Val tt ->
   exists d, first_unit_refresh o = Done d /\ coherent s /\
             lively (unit_life d) s).
Proof.
  intros H. pose proof (startup_state _ _ _ _ H) as (_ & _ & _ & _ & _ & St).
  unfold startup in H.
  cbv [bind call emit ret fail panic modify get start watchConfigSettings] in H.
  destruct (st_unit o) as [d0|e0]; simpl in H;
    [|simplify_eq; repeat split; try done; intros w; simpl; lia].
  destruct (unitChanged _ _) as [[ru su] tu] eqn:HU.
  pose proof (unitChanged_untouched _ _ _ _ _ HU) as ((_&_&_&_&_&Fc&_&Fr) & _).
  apply unitChanged_first in HU as (Fu & Fs & Fn & Pu & Du); [|done..].
  simpl in *.
  destruct ru as [[]|x]; simpl in H; cycle 1.
  { simplify_eq. repeat split; try done. intros w. rewrite Fn. lia. }
  destruct (Du eq_refl) as (d & Hfirst & Hd & Hl & Hr & Hn & Hc).
  destruct (unit_service o) as [[]|e1]; simpl in H; cycle 1.
  { simplify_eq. repeat split; try done. intros w. rewrite Fn. lia. }
  destruct (serviceChanged _ _ _) as [[rs ss] ts] eqn:HS.
  pose proof (serviceChanged_untouched _ _ _ _ _ _ HS) as ((_&_&_&_&_&Gc&_&Gr) & _).
  apply serviceChanged_rest in HS as (Gu & Gs & Gn & Gf & Gl & Gv & Gd & Ps).
  destruct rs as [[]|x]; simpl in H; cycle 1.
  { simplify_eq. repeat split; try done. intros w. rewrite Gn, Fn. lia. }
  rewrite Gf, Hd in H.
  assert (next_watcher ss = 0%nat) as N0 by congruence.
  destruct (unit_charm d) as [curl|] eqn:Hc'; simpl in H;
    [destruct (first_watch_config o) as [[]|e2]; simpl in H|];
    simplify_eq; simpl.
  all: split; [unfold accounted, held; simpl; rewrite ?N0; intros w Hw;
               left; assert (w = 0 \/ w = 1 \/ w = 2 \/ w = 3)%nat
                 as [-> | [-> | [-> | ->]]] by lia; auto 6; lia|].
  all: split; [try done|]; try done.
  all: intros _; exists d; split; [done|].
  all: destruct (St eq_refl) as (_ & _ & Av & _); simpl in Av.
  all: split; [exists d; repeat split; simpl; congruence|].
  all: unfold lively; simpl; repeat split; try congruence.
  all: intros Cl; rewrite Gl; apply Hc; congruence.
Qed.

(** ** Panics, watchers and errors *)

Lemma iterate_app (evs1 evs2 : list event) : forall s out t,
  evs2 <> [] ->
  iterate (evs1 ++ evs2) s = Some (out, t) ->
  exists s1 t1 t2,
    iterate evs1 s = Some (Running s1, t1) /\
    iterate evs2 s1 = Some (out, t2) /\ t = t1 ++ t2.
Proof.
  induction evs1 as [|ev evs1 IH]; intros s out t N H.
  - by exists s, [], t.
  - rewrite <- app_comm_cons in H. cbn [iterate] in *.
    destruct (select ev s) as [[[[[]|x] s1] t1]|] eqn:Hs; [| |done].
    + destruct (iterate (evs1 ++ evs2) s1) as [[out' t']|] eqn:Hi; [|done].
      simplify_eq. destruct (IH _ _ _ N Hi) as (s2 & u1 & u2 & -> & H2 & ->).
      exists s2, (t1 ++ u1), u2. by rewrite app_assoc.
    + destruct (evs1 ++ evs2) eqn:E; [|done].
      by apply app_eq_nil in E as [_ ?].
Qed.

Lemma loop_keeps (P : state -> Prop) (Q : action -> Prop) :
  (forall ev s r s' t, True -> P s -> select ev s = Some (r, s', t) ->
     Forall Q t /\ (r = Val tt -> P s')) ->
  (forall w, Q (WatcherStop w)) ->
  (forall o r s t, startup o newFilter = (r, s, t) ->
     Forall Q t /\ (r = Val tt -> P s)) ->
  forall o evs out t,
    loop o evs = Some (out, t) ->
    Forall Q t /\ (forall s, out = Running s -> P s).
Proof.
  intros Hsel Hstop Hstart o evs out t H.
  apply loop_inv in H as [(s0 & t0 & t1 & Hs & Hi & ->)|(x & s0 & t0 & Hs & -> & -> & ->)].
  - apply Hstart in Hs as [T0 P0].
    destruct (iterate_keeps P Q (fun _ => True) Hsel Hstop evs s0 out t1)
      as [T1 P1]; try done; [by apply Forall_true|by apply P0|].
    split; [by apply Forall_app_2|done].
  - apply Hstart in Hs as [T0 _]. split; [|done].
    apply Forall_app_2; [done|]. by apply deferred_fine.
Qed.

Lemma no_sends (Q : action -> Prop) (t : list action) :
  (forall a, is_send a = false -> Q a) ->
  Forall (fun a => is_send a = false) t -> Forall Q t.
Proof. intros HQ F. eapply Forall_impl; [exact F|exact HQ]. Qed.

Lemma iterate_lively (evs : list event) : forall l s out t,
  lively l s -> lives_monotone l evs ->
  iterate evs s = Some (out, t) ->
  forall x s', out = Stopped x s' -> exists e, x = Return e.
Proof.
  induction evs as [|ev evs IH]; intros l s out t J M H x s' ->; simpl in H;
    [done|].
  destruct (select ev s) as [[[r s1] t1]|] eqn:Hs; [|done].
  simpl in M.
  assert (match reported_life ev with
          | Some l' => life_le l l' = true
          | None => True
          end /\ lives_monotone (default l (reported_life ev)) evs) as [M1 M2].
  { destruct (reported_life ev); simpl; [done|by split]. }
  destruct (select_lively l ev s r s1 t1 J M1 Hs) as [NP J1].
  destruct r as [[]|x1].
  - destruct (iterate evs s1) as [[out' t']|] eqn:Hi; [|done]. simplify_eq.
    by eapply (IH _ _ _ _ (J1 eq_refl) M2 Hi).
  - destruct evs; [|done]. simplify_eq. destruct x; [by eexists|].
    by destruct (NP msg).
Qed.

(** X1.  When the lives that the backend reads back for the unit never
    step back (alive, then dying, then dead), [loop] never panics: it
    dereferences no nil pointer and does not close [f.outUnitDying] twice.
    Whenever it stops, start-up included, it returns an error. *)
Theorem loop_never_panics (o : startup_replies) (evs : list event) (x : exit) (s : state) (t : list action) :
  loop o evs = Some (Stopped x s, t) ->
  (forall d, first_unit_refresh o = Done d -> lives_monotone (unit_life d) evs) ->
  exists e, x = Return e.
Proof.
  intros H M.
  apply loop_inv in H as [(s0 & t0 & t1 & Hs & Hi & ->)|(x' & s0 & t0 & Hs & -> & [= <- <-] & ->)].
  - apply startup_unit in Hs as (_ & _ & Hs).
    destruct (Hs eq_refl) as (d & Hd & _ & J).
    by eapply (iterate_lively evs _ _ _ _ J (M d Hd) Hi).
  - apply startup_unit in Hs as (_ & NP & _).
    destruct x; [by eexists|]. by destruct (NP msg).
Qed.

(** X1 on a unit read back dying twice, then dead. *)
Lemma loop_never_panics_witness :
  exists x s t,
    loop quiet_start
      [UnitChange (Done (UnitDoc Dying ResolvedNone (Some foo1)));
       UnitChange (Done (UnitDoc Dying ResolvedNone (Some foo1)));
       UnitChange (Done (UnitDoc Dead ResolvedNone (Some foo1)))]
    = Some (Stopped x s, t) /\
    exists e, x = Return e.
Proof.
  eexists _, _, _. split; [vm_compute; reflexivity|].
  refine (loop_never_panics quiet_start
            [UnitChange (Done (UnitDoc Dying ResolvedNone (Some foo1)));
             UnitChange (Done (UnitDoc Dying ResolvedNone (Some foo1)));
             UnitChange (Done (UnitDoc Dead ResolvedNone (Some foo1)))]
            _ _ _ _ _).
  - vm_compute. reflexivity.
  - intros d [= <-]. simpl. repeat split.
Defined.

Lemma iterate_accounted (evs : list event) : forall T s x s' t,
  accounted T s -> iterate evs s = Some (Stopped x s', t) ->
  forall w : watcher, (w < next_watcher s')%nat -> WatcherStop w ∈ T ++ t.
Proof.
  induction evs as [|ev evs IH]; intros T s x s' t A H; simpl in H; [done|].
  destruct (select ev s) as [[[r s1] t1]|] eqn:Hs; [|done].
  pose proof (select_accounted T ev s r s1 t1 A Hs) as A1.
  destruct r as [[]|x1].
  - destruct (iterate evs s1) as [[out' t']|] eqn:Hi; [|done]. simplify_eq.
    rewrite app_assoc. by eapply IH.
  - destruct evs; [|done]. simplify_eq. intros w Hw. rewrite app_assoc.
    apply elem_of_app. destruct (A1 w Hw) as [Hh|?]; [right|by left].
    unfold deferred, stop. rewrite !elem_of_app.
    destruct Hh as [-> | [-> | [-> | ->]]]; simpl; rewrite list_elem_of_singleton;
      tauto.
Qed.

(** X2.  When [loop] returns, on whatever path and panics included, [Stop]
    has been called on every watcher that it started: directly, before a
    watcher is replaced, or by the deferred calls. *)
Theorem watchers_all_stopped (o : startup_replies) (evs : list event) (x : exit) (s : state) (t : list action) :
  loop o evs = Some (Stopped x s, t) ->
  forall w : watcher, (w < next_watcher s)%nat -> WatcherStop w ∈ t.
Proof.
  intros H.
  apply loop_inv in H as [(s0 & t0 & t1 & Hs & Hi & ->)|(x' & s0 & t0 & Hs & -> & [= <- <-] & ->)].
  - apply startup_unit in Hs as (A & _). by eapply iterate_accounted.
  - apply startup_unit in Hs as (A & _). intros w Hw.
    apply elem_of_app. destruct (A w Hw) as [Hh|?]; [right|by left].
    unfold deferred, stop. rewrite !elem_of_app.
    destruct Hh as [-> | [-> | [-> | ->]]]; simpl; rewrite list_elem_of_singleton;
      tauto.
Qed.

(** X2 on a loop that restarts two watchers and is then told to die:
    six watchers were started and six are stopped. *)
Lemma watchers_all_stopped_witness :
  exists x s t,
    loop quiet_start [SetCharm foo2 all_ok; TombDying] = Some (Stopped x s, t) /\
    next_watcher s = 6%nat /\
    forall w : watcher, (w < next_watcher s)%nat -> WatcherStop w ∈ t.
Proof.
  eexists _, _, _. split; [vm_compute; reflexivity|]. split; [reflexivity|].
  refine (watchers_all_stopped quiet_start [SetCharm foo2 all_ok; TombDying]
            _ _ _ _).
  vm_compute. reflexivity.
Defined.

Lemma select_errors (ev : event) (s : state) (e : error) s' t :
  select ev s = Some (Exit (Return e), s', t) ->
  e ∈ own_errors \/ e ∈ given_errors ev.
Proof.
  intros H. unfold own_errors. select_cases H ev.
  all: repeat match goal with
       | H : _ = Done _ |- _ => rewrite H in *
       | H : _ = Failed _ |- _ => rewrite H in *
       end; simpl.
  all: try match goal with
       | |- context [IsNotFoundError ?x] => destruct (IsNotFoundError x)
       end.
  all: rewrite ?elem_of_app, ?elem_of_cons; tauto.
Qed.

Lemma unitChanged_errors (r : reply unit_doc) (s : state) (e : error) s' t :
  unitChanged r s = (Exit (Return e), s', t) ->
  e ∈ own_errors \/ e ∈ reply_error r.
Proof.
  intros H. unfold own_errors. run_cases.
  all: try match goal with
       | |- context [IsNotFoundError ?x] => destruct (IsNotFoundError x)
       end.
  all: rewrite ?elem_of_app, ?elem_of_cons; tauto.
Qed.

Lemma serviceChanged_errors (r : reply service_doc) (destroy : reply ()) (s : state) (e : error) s' t :
  serviceChanged r destroy s = (Exit (Return e), s', t) ->
  e ∈ own_errors \/ e ∈ reply_error r ++ reply_error destroy.
Proof.
  intros H. unfold own_errors. run_cases.
  all: try match goal with
       | |- context [IsNotFoundError ?x] => destruct (IsNotFoundError x)
       end.
  all: rewrite ?elem_of_app, ?elem_of_cons; tauto.
Qed.

Lemma startup_errors_given (o : startup_replies) (e : error) s t :
  startup o newFilter = (Exit (Return e), s, t) ->
  e ∈ own_errors \/ e ∈ startup_errors o.
Proof.
  intros H. unfold startup in H. unfold startup_errors.
  cbv [bind call emit ret fail panic modify get start watchConfigSettings] in H.
  destruct (st_unit o) as [d0|e0]; simpl in H;
    [|simplify_eq; right; apply list_elem_of_here].
  destruct (unitChanged _ _) as [[ru su] tu] eqn:HU.
  pose proof (unitChanged_untouched _ _ _ _ _ HU) as (_ & _ & _ & Du).
  destruct ru as [[]|x]; simpl in H; cycle 1.
  { simplify_eq. apply unitChanged_errors in HU as [?|?]; [by left|right].
    rewrite !elem_of_app. tauto. }
  destruct (Du eq_refl) as (d & Hfirst & Hd).
  destruct (unit_service o) as [[]|e1]; simpl in H; cycle 1.
  { simplify_eq. right. simpl. rewrite !elem_of_app, elem_of_cons. tauto. }
  destruct (serviceChanged _ _ _) as [[rs ss] ts] eqn:HS.
  pose proof (serviceChanged_untouched _ _ _ _ _ _ HS) as (_ & _ & Us & _).
  destruct rs as [[]|x]; simpl in H; cycle 1.
  { simplify_eq. apply serviceChanged_errors in HS as [?|?]; [by left|right].
    rewrite !elem_of_app in *. tauto. }
  rewrite Us, Hd in H.
  destruct (unit_charm d) as [curl|] eqn:Hc; simpl in H;
    [destruct (first_watch_config o) as [[]|e2]; simpl in H|];
    simplify_eq.
  right. simpl. rewrite !elem_of_app, elem_of_cons. tauto.
Qed.

(** X3.  The error that [loop] returns is either one that a backend call
    or a closed watcher handed to it, or one of the four it makes up:
    [tomb.ErrDying], [worker.ErrTerminateAgent], "service unexpectedly
    removed" and "service unexpectedly dead". *)
Theorem loop_errors_given (o : startup_replies) (evs : list event) (e : error) (s : state) (t : list action) :
  loop o evs = Some (Stopped (Return e) s, t) ->
  e ∈ own_errors \/ e ∈ startup_errors o \/
  exists ev, ev ∈ evs /\ e ∈ given_errors ev.
Proof.
  intros H.
  apply loop_inv in H as [(s0 & t0 & t1 & _ & Hi & _)|(x' & s0 & t0 & Hs & -> & [= <- <-] & ->)].
  - clear t t0. revert s0 t1 Hi.
    induction evs as [|ev evs IH]; intros s0 t1 Hi; simpl in Hi; [done|].
    destruct (select ev s0) as [[[[[]|x1] s1] u1]|] eqn:Hs; [| |done].
    + destruct (iterate evs s1) as [[out' t']|] eqn:Hi'; [|done]. simplify_eq.
      destruct (IH _ _ Hi') as [?|[?|(ev' & ? & ?)]]; auto.
      right; right. exists ev'. split; [by apply list_elem_of_further|done].
    + destruct evs; [|done]. simplify_eq.
      apply select_errors in Hs as [?|?]; auto.
      right; right. exists ev. split; [apply list_elem_of_here|done].
  - apply startup_errors_given in Hs as [?|?]; auto.
Qed.

(** X3 on a service that is not found. *)
Lemma loop_errors_given_witness :
  exists s t,
    loop quiet_start [ServiceChange (Failed (NotFoundError "gone")) (Done tt)]
    = Some (Stopped (Return (Errorf "service unexpectedly removed")) s, t) /\
    (Errorf "service unexpectedly removed" ∈ own_errors \/
     Errorf "service unexpectedly removed" ∈ startup_errors quiet_start \/
     exists ev,
       ev ∈ [ServiceChange (Failed (NotFoundError "gone")) (Done tt)] /\
       Errorf "service unexpectedly removed" ∈ given_errors ev).
Proof.
  eexists _, _. split; [vm_compute; reflexivity|].
  refine (loop_errors_given quiet_start
            [ServiceChange (Failed (NotFoundError "gone")) (Done tt)]
            (Errorf "service unexpectedly removed") _ _ _).
  vm_compute. reflexivity.
Defined.

(** ** The cache of the unit *)

(** X4.  Wherever the loop waits, [f.life] and [f.resolved] are the life
    and the resolved mode that the last [Refresh] of the unit read back,
    and the unit is not dead. *)
Theorem unit_cache_coherent (o : startup_replies) (evs : list event) (s : state) (t : list action) :
  loop o evs = Some (Running s, t) ->
  exists d, f_unit s = Some d /\ life s = unit_life d /\
            resolved s = unit_resolved d /\ life s <> Dead.
Proof.
  intros H.
  refine (proj2 (loop_keeps coherent (fun _ => True) select_coherent
                   (fun _ => I) _ o evs _ t H) s eq_refl).
  intros o' r' s' t' Hs. split; [by apply Forall_true|]. intros ->.
  by apply startup_unit in Hs as (_ & _ & Hs); destruct (Hs eq_refl) as (? & _ & ? & _).
Qed.

(** X4 on the loop of [quiet_start]. *)
Lemma unit_cache_coherent_witness :
  exists d, f_unit started = Some d /\ life started = unit_life d /\
            resolved started = unit_resolved d /\ life started <> Dead.
Proof.
  refine (unit_cache_coherent quiet_start [] started _ _).
  vm_compute. reflexivity.
Defined.

Lemma select_closes (ev : event) (s : state) s' t :
  (life s = Dying -> outUnitDying s = true) ->
  select ev s = Some (Val tt, s', t) ->
  (life s' = Dying -> outUnitDying s' = true) /\
  outUnitDying s' = outUnitDying s || reports_dying ev.
Proof.
  intros C H. unfold reports_dying. select_cases_policy H ev.
  all: repeat match goal with
       | H : _ = Done _ |- _ => rewrite H in *
       | H : _ = Failed _ |- _ => rewrite H in *
       end; simpl.
  all: repeat match goal with H : unit_life _ = _ |- _ => rewrite H in * end.
  all: try (split; [done|]; by rewrite ?orb_false_r, ?orb_true_r).
  all: try (split; [done|]; rewrite bool_decide_eq_false_2 by congruence;
            by rewrite orb_false_r).
  all: split; [done|]; case_bool_decide;
    [by rewrite C by congruence|by rewrite orb_false_r].
Qed.

Lemma iterate_closes (evs : list event) : forall s s' t,
  (life s = Dying -> outUnitDying s = true) ->
  iterate evs s = Some (Running s', t) ->
  outUnitDying s' = outUnitDying s || seen_dying evs.
Proof.
  induction evs as [|ev evs IH]; intros s s' t C H; simpl in H.
  - simplify_eq. by rewrite orb_false_r.
  - destruct (select ev s) as [[[[[]|x] s1] t1]|] eqn:Hs; [|by destruct evs|done].
    destruct (iterate evs s1) as [[out' t']|] eqn:Hi; [|done]. simplify_eq.
    apply select_closes in Hs as [C1 E1]; [|done].
    rewrite (IH _ _ _ C1 Hi), E1. unfold seen_dying. simpl.
    by rewrite orb_assoc.
Qed.

Lemma startup_closes (o : startup_replies) (s : state) (t : list action) :
  startup o newFilter = (Val tt, s, t) ->
  exists d, first_unit_refresh o = Done d /\
    (life s = Dying -> outUnitDying s = true) /\
    outUnitDying s = bool_decide (unit_life d = Dying).
Proof.
  intros H. unfold startup in H.
  cbv [bind call emit ret fail panic modify get start watchConfigSettings] in H.
  destruct (st_unit o) as [d0|e0]; simpl in H; [|done].
  destruct (unitChanged _ _) as [[ru su] tu] eqn:HU.
  destruct ru as [[]|x]; simpl in H; [|done].
  assert (exists d, first_unit_refresh o = Done d /\ f_unit su = Some d /\
            life su = unit_life d /\
            outUnitDying su = bool_decide (unit_life d = Dying)) as (d & Hd & Hu & L & C).
  { run_cases_policy.
    all: eexists; repeat split; try done.
    all: by (rewrite bool_decide_eq_false_2 by congruence) ||
         by (rewrite bool_decide_eq_true_2 by congruence). }
  clear HU.
  destruct (unit_service o) as [[]|e1]; simpl in H; [|done].
  destruct (serviceChanged _ _ _) as [[rs ss] ts] eqn:HS.
  apply serviceChanged_rest in HS as (_ & _ & _ & Gf & Gl & _ & Gd & _).
  destruct rs as [[]|x]; simpl in H; [|done].
  rewrite Gf, Hu in H. exists d. split; [done|].
  destruct (unit_charm d) as [curl|] eqn:Hc; simpl in H;
    [destruct (first_watch_config o) as [[]|e2]; simpl in H|];
    simplify_eq; simpl.
  all: rewrite Gd, Gl, C, L; split; [|done].
  all: intros ?; by rewrite bool_decide_eq_true_2.
Qed.

(** X5.  Wherever the loop waits, [f.outUnitDying] is closed exactly when
    the unit has been read back dying, at start-up or since. *)
Theorem unit_dying_closed_iff_seen (o : startup_replies) (evs : list event) (s : state) (t : list action) :
  loop o evs = Some (Running s, t) ->
  exists d, first_unit_refresh o = Done d /\
    outUnitDying s = bool_decide (unit_life d = Dying) || seen_dying evs.
Proof.
  intros H.
  apply loop_inv in H as [(s0 & t0 & t1 & Hs & Hi & ->)|(?&?&?&?&?&?&?)]; [|done].
  apply startup_closes in Hs as (d & Hd & C & E0).
  exists d. split; [done|]. rewrite <- E0. by eapply iterate_closes.
Qed.

(** X5 on a unit that a notification shows dying. *)
Lemma unit_dying_closed_iff_seen_witness :
  exists s t,
    loop quiet_start [UnitChange (Done (UnitDoc Dying ResolvedNone (Some foo1)))]
    = Some (Running s, t) /\
    exists d, first_unit_refresh quiet_start = Done d /\
      outUnitDying s =
      bool_decide (unit_life d = Dying) ||
      seen_dying [UnitChange (Done (UnitDoc Dying ResolvedNone (Some foo1)))].
Proof.
  eexists _, _. split; [vm_compute; reflexivity|].
  refine (unit_dying_closed_iff_seen quiet_start
            [UnitChange (Done (UnitDoc Dying ResolvedNone (Some foo1)))] _ _ _).
  vm_compute. reflexivity.
Defined.

(** ** Armed outputs *)

(** X6.  Wherever the loop waits with the upgrade output armed, the unit
    is alive, the pending upgrade is the charm URL that the service
    announces, it differs from the URL of the unit, and it is forced or
    the consumer takes unforced upgrades.  No delivered upgrade is nil. *)
Theorem armed_upgrade_is_due (o : startup_replies) (evs : list event) (out : outcome) (t : list action) :
  loop o evs = Some (out, t) ->
  (forall s, out = Running s -> outUpgrade s = ChanOn -> upgrade_due s) /\
  (forall u, SendUpgrade u ∈ t -> u <> None).
Proof.
  intros H.
  destruct (loop_keeps upgrade_armed_due upgrade_not_nil select_due
              (fun _ => I)) with (o := o) (evs := evs) (out := out) (t := t)
    as [T P]; try done.
  - intros o' r' s' t' Hs. apply startup_state in Hs as (T0 & _ & _ & _ & _ & St).
    split; [eapply no_sends; [|exact T0]; by intros [] ?; simplify_eq/=|].
    intros ->. destruct (St eq_refl) as (Off & _). unfold upgrade_armed_due.
    by rewrite Off.
  - split; [done|]. intros u Hin ->. rewrite Forall_forall in T.
    exact (T _ Hin).
Qed.

(** X6 on the loop of [quiet_start] after [WantUpgradeEvent(false)]. *)
Lemma armed_upgrade_is_due_witness : upgrade_due upgrade_armed.
Proof.
  refine (proj1 (armed_upgrade_is_due quiet_start [WantUpgradeEvent false]
                   (Running upgrade_armed) _ _) upgrade_armed eq_refl eq_refl).
  vm_compute. reflexivity.
Defined.

(** X7.  Wherever the loop waits, the relations output is armed exactly
    when relation ids are pending, and no delivered list is empty. *)
Theorem relations_armed_iff_pending (o : startup_replies) (evs : list event) (out : outcome) (t : list action) :
  loop o evs = Some (out, t) ->
  (forall s, out = Running s -> outRelations s = ChanOn <-> relations s <> []) /\
  (forall ids, SendRelations ids ∈ t -> ids <> []).
Proof.
  intros H.
  destruct (loop_keeps relations_armed sends_some select_relations_armed
              (fun _ => I)) with (o := o) (evs := evs) (out := out) (t := t)
    as [T P]; try done.
  - intros o' r' s' t' Hs. apply startup_state in Hs as (T0 & R0 & _ & _ & O0 & _).
    split; [eapply no_sends; [|exact T0]; by intros [] ?; simplify_eq/=|].
    intros _. unfold relations_armed. by rewrite R0, O0.
  - split; [done|]. intros ids Hin ->. rewrite Forall_forall in T.
    exact (T _ Hin).
Qed.

(** X7 after a notification of two relations. *)
Lemma relations_armed_iff_pending_witness :
  exists s t,
    loop quiet_start [RelationsChange [3; 1]] = Some (Running s, t) /\
    (outRelations s = ChanOn <-> relations s <> []).
Proof.
  eexists _, _. split; [vm_compute; reflexivity|].
  refine (proj1 (relations_armed_iff_pending quiet_start [RelationsChange [3; 1]]
                   _ _ _) _ eq_refl).
  vm_compute. reflexivity.
Defined.

Lemma sort_Ints_perm (l1 l2 : list Z) : l1 ≡ₚ l2 -> sort_Ints l1 = sort_Ints l2.
Proof.
  intros P. unfold sort_Ints.
  apply (Sorted_unique Z.le); try (apply Sorted_merge_sort; intros x y; lia).
  by rewrite !merge_sort_Permutation.
Qed.

Lemma append_new_app (rels a b : list Z) :
  append_new rels (a ++ b) = append_new (append_new rels a) b.
Proof. unfold append_new. by rewrite fold_left_app. Qed.

Lemma append_new_perm (b : list Z) : forall l1 l2,
  l1 ≡ₚ l2 -> append_new l1 b ≡ₚ append_new l2 b.
Proof.
  unfold append_new. induction b as [|id b IH]; intros l1 l2 P; [done|].
  simpl.
  assert (existsb (Z.eqb id) l1 = existsb (Z.eqb id) l2) as ->.
  { apply eq_true_iff_eq. rewrite !existsb_eqb_elem_of. by rewrite P. }
  destruct (existsb (Z.eqb id) l2); apply IH; [done|by rewrite P].
Qed.

Lemma append_new_elem (ids : list Z) : forall rels x,
  x ∈ append_new rels ids <-> x ∈ rels \/ x ∈ ids.
Proof.
  unfold append_new. induction ids as [|id ids IH]; intros rels x; simpl.
  - rewrite elem_of_nil. tauto.
  - destruct (existsb (Z.eqb id) rels) eqn:Ex; rewrite IH, elem_of_cons.
    + apply existsb_eqb_elem_of in Ex. split; [tauto|].
      intros [?|[->|?]]; tauto.
    + rewrite elem_of_app, list_elem_of_singleton. tauto.
Qed.

Lemma sort_Ints_elem (x : Z) (l : list Z) : x ∈ sort_Ints l <-> x ∈ l.
Proof. unfold sort_Ints. by rewrite merge_sort_Permutation. Qed.

(** X8.  Two relations notifications in a row leave the filter as one
    notification of both lists of ids does, and the pending ids are then
    those that were pending together with those notified. *)
Theorem relations_notifications_compose (s : state) (a b : list Z) :
  exists s1 s2,
    handle (RelationsChange a) s = (Val tt, s1, []) /\
    handle (RelationsChange b) s1 = (Val tt, s2, []) /\
    handle (RelationsChange (a ++ b)) s = (Val tt, s2, []) /\
    (forall x, x ∈ relations s2 <-> x ∈ relations s \/ x ∈ a \/ x ∈ b).
Proof.
  simpl. rewrite !relationsChanged_unfold. eexists _, _.
  split; [reflexivity|]. rewrite relationsChanged_unfold.
  split; [reflexivity|]. rewrite append_new_app.
  pose proof (append_new_elem a (relations s)) as Ea.
  destruct (append_new (relations s) a) as [|z l] eqn:E1; simpl.
  - pose proof (append_new_elem b []) as Eb.
    destruct (append_new [] b) as [|z2 l2] eqn:E2; simpl.
    + split; [by destruct s|]. intros x. specialize (Ea x). specialize (Eb x).
      simpl. rewrite elem_of_nil in *. tauto.
    + split; [by destruct s|]. intros x. specialize (Ea x). specialize (Eb x).
      simpl. rewrite sort_Ints_elem. rewrite elem_of_nil in *. tauto.
  - assert (append_new (sort_Ints (z :: l)) b ≡ₚ append_new (z :: l) b) as P.
    { apply append_new_perm, merge_sort_Permutation. }
    pose proof (append_new_elem b (z :: l)) as Eb.
    destruct (append_new (sort_Ints (z :: l)) b) as [|z2 l2] eqn:E2;
      [by apply append_new_nil, sort_Ints_nil in E2|].
    destruct (append_new (z :: l) b) as [|z3 l3] eqn:E3;
      [by apply append_new_nil in E3|].
    rewrite (sort_Ints_perm _ _ P). split; [by destruct s|].
    intros x. specialize (Ea x). specialize (Eb x).
    simpl. rewrite sort_Ints_elem. tauto.
Qed.

Lemma iterate_arms (o : output) (evs : list event) : forall s s' t,
  iterate evs s = Some (Running s', t) ->
  target o s' = ChanOn ->
  target o s = ChanOn \/ exists ev, ev ∈ evs /\ arms o ev = true.
Proof.
  induction evs as [|ev evs IH]; intros s s' t H On; simpl in H.
  - simplify_eq. by left.
  - destruct (select ev s) as [[[[[]|x] s1] t1]|] eqn:Hs; [|by destruct evs|done].
    destruct (iterate evs s1) as [[out' t']|] eqn:Hi; [|done]. simplify_eq.
    destruct (IH _ _ _ Hi On) as [On1|(ev' & Hin & Hev)].
    + destruct (select_arms _ _ _ _ _ _ Hs On1) as [?|Hev]; [by left|].
      right. exists ev. split; [apply list_elem_of_here|done].
    + right. exists ev'. split; [by apply list_elem_of_further|done].
Qed.

Lemma deliver_ready (o : output) (s : state) :
  ready (deliver o) s = true <-> target o s = ChanOn.
Proof. destruct o; simpl; apply bool_decide_eq_true. Qed.

Lemma deliver_disarms (o : output) (s : state) r s' t :
  select (deliver o) s = Some (r, s', t) -> r = Val tt /\ target o s' = ChanNil.
Proof.
  unfold select. destruct (ready _ _); [|done]. intros [= H].
  destruct o; unfold_handlers; by simplify_eq/=.
Qed.

(** X9.  An output that has been delivered is not delivered again before
    a branch that can arm it has run: a service notification, [SetCharm]
    or [WantUpgradeEvent] for upgrades; a unit notification,
    [ClearResolved] or [WantResolvedEvent] for resolved events; a config or
    a relations notification for the other two. *)
Theorem no_redelivery (o : output) (s : state) (evs : list event) (out : outcome) (t : list action) :
  iterate (deliver o :: evs ++ [deliver o]) s = Some (out, t) ->
  exists ev, ev ∈ evs /\ arms o ev = true.
Proof.
  intros H. cbn [iterate] in H.
  destruct (select (deliver o) s) as [[[r s1] t1]|] eqn:Hs; [|done].
  destruct (deliver_disarms _ _ _ _ _ Hs) as [-> Off].
  destruct (iterate (evs ++ [deliver o]) s1) as [[out' t']|] eqn:Hi; [|done].
  apply iterate_app in Hi as (s2 & u1 & u2 & H1 & H2 & _); [|done].
  cbn [iterate] in H2. unfold select in H2.
  destruct (ready (deliver o) s2) eqn:Hr; [|done].
  apply deliver_ready in Hr.
  destruct (iterate_arms _ _ _ _ _ H1 Hr) as [On|?]; [congruence|done].
Qed.

(** X9 on a config event delivered twice: a config notification lies in
    between. *)
Lemma no_redelivery_witness :
  exists ev, ev ∈ [ConfigChange; WantResolvedEvent] /\ arms Config ev = true.
Proof.
  refine (no_redelivery Config (set_discardConfig true (set_outConfig ChanOn started))
            [ConfigChange; WantResolvedEvent] _ _ _).
  vm_compute. reflexivity.
Defined.

(** ** Requests and repeated notifications *)

(** X10.  Once [ClearResolved] has succeeded and read the unit back with
    [ResolvedNone], no resolved event is delivered until the loop reads the
    unit again, whatever is asked with [WantResolvedEvent] meanwhile. *)
Theorem clearResolved_silences (s s1 : state) (r : clearResolved_replies) (t1 : list action) (evs : list event) (out : outcome) (t : list action) :
  select (ClearResolved r) s = Some (Val tt, s1, t1) ->
  (exists d, refresh_unit r = Done d /\ unit_resolved d = ResolvedNone) ->
  Forall (fun ev => reads_unit ev = false) evs ->
  iterate evs s1 = Some (out, t) ->
  (forall m, SendResolved m ∉ t1 ++ t) /\
  (forall s', out = Running s' -> resolved s' = ResolvedNone /\ outResolved s' <> ChanOn).
Proof.
  intros H (d & Hd & Hn) E Hi.
  assert (resolved_cleared s1 /\ Forall no_resolved t1) as [C T1].
  { unfold select in H. simpl ready in H. apply (inj Some) in H.
    unfold resolved_cleared. run_cases_policy.
    all: simpl; split; [split; done || congruence|by repeat constructor]. }
  destruct (iterate_keeps resolved_cleared no_resolved
              (fun ev => reads_unit ev = false) select_cleared (fun _ => I)
              evs s1 out t E C Hi) as [T P].
  split; [|done]. intros m Hin.
  pose proof (Forall_app_2 _ _ _ T1 T) as F. rewrite Forall_forall in F.
  exact (F _ Hin).
Qed.

(** X10 on a unit whose [ResolvedRetryHooks] is armed when it is
    cleared. *)
Lemma clearResolved_silences_witness :
  exists s1 t1 out t,
    select (ClearResolved
              (ClearResolvedReplies (Done tt)
                 (Done (UnitDoc Alive ResolvedNone (Some foo1))) true))
           (set_outResolved ChanOn (set_resolved ResolvedRetryHooks started))
    = Some (Val tt, s1, t1) /\
    iterate [WantResolvedEvent; ConfigChange] s1 = Some (out, t) /\
    forall m, SendResolved m ∉ t1 ++ t.
Proof.
  eexists _, _, _, _. split; [vm_compute; reflexivity|].
  split; [vm_compute; reflexivity|].
  refine (proj1 (clearResolved_silences
                   (set_outResolved ChanOn (set_resolved ResolvedRetryHooks started))
                   _
                   (ClearResolvedReplies (Done tt)
                      (Done (UnitDoc Alive ResolvedNone (Some foo1))) true)
                   _ [WantResolvedEvent; ConfigChange] _ _ _ _ _ _)).
  - vm_compute. reflexivity.
  - eexists. split; reflexivity.
  - by repeat constructor.
  - vm_compute. reflexivity.
Defined.

(** X11.  The loop acknowledges [ClearResolved] as the last step of the
    branch: the caller gets nil exactly when the loop goes on, after the
    flag has been cleared in the backend and the unit read back; any
    failure reaches the caller as [tomb.ErrDying]. *)
Theorem clearResolved_acknowledges_last (s : state) (r : clearResolved_replies) res s' t :
  handle (ClearResolved r) s = (res, s', t) ->
  (ClearResolved_result t = None <-> res = Val tt) /\
  (res = Val tt ->
   clear_resolved r = Done tt /\ (exists d, refresh_unit r = Done d) /\
   last t = Some SendDidClearResolved /\ head t = Some UnitClearResolved).
Proof.
  intros H. unfold ClearResolved_result. run_cases.
  all: split; [split; done|]; try done.
  all: intros _; repeat split; eauto.
  all: match goal with |- Done ?u = _ => by destruct u end.
Qed.

(** X11 on a [ClearResolved] that meets no error. *)
Lemma clearResolved_acknowledges_last_witness :
  ClearResolved_result [UnitClearResolved; UnitRefresh; SendDidClearResolved] = None
  <-> Val tt = Val tt :> res ().
Proof.
  refine (proj1 (clearResolved_acknowledges_last started
    (ClearResolvedReplies (Done tt)
       (Done (UnitDoc Alive ResolvedNone (Some foo1))) true) (Val tt) _ _ _)).
  vm_compute. reflexivity.
Defined.

(** X12.  A unit notification that reads back what the previous one read
    changes nothing; in particular it does not arm again a resolved event
    that the consumer has read. *)
Theorem unit_change_idempotent (d : unit_doc) (s s1 : state) (t1 : list action) :
  select (UnitChange (Done d)) s = Some (Val tt, s1, t1) ->
  select (UnitChange (Done d)) s1 = Some (Val tt, s1, [UnitRefresh]) /\
  (forall s2 t2,
     select DeliverResolved s1 = Some (Val tt, s2, t2) ->
     select (UnitChange (Done d)) s2 = Some (Val tt, s2, [UnitRefresh]) /\
     outResolved s2 = ChanNil).
Proof.
  intros H. unfold select in *. simpl ready in *. apply (inj Some) in H.
  simpl handle in *. rewrite unitChanged_unfold in H.
  assert (f_unit s1 = Some d /\ life s1 = unit_life d /\
          resolved s1 = unit_resolved d) as (U & L & R).
  { unfold note_resolved in H. simpl in H.
    repeat case_decide; repeat case_match; simplify_eq/=; repeat split;
      try done; try congruence; by apply dec_stable. }
  clear H.
  assert (forall s2, f_unit s2 = Some d -> life s2 = unit_life d ->
                     resolved s2 = unit_resolved d ->
                     unitChanged (Done d) s2 = (Val tt, s2, [UnitRefresh])) as Same.
  { intros s2 U2 L2 R2. rewrite unitChanged_unfold. simpl.
    case_decide; [congruence|]. unfold note_resolved.
    case_decide as Hr; [simpl in Hr; congruence|]. f_equal. f_equal. destruct s2. simpl in *.
    by subst. }
  split; [by rewrite Same|].
  intros s2 t2. case_bool_decide; [|done]. intros [= <- <-]. by rewrite Same.
Qed.

(** X12 on a unit read back twice with [ResolvedRetryHooks]. *)
Lemma unit_change_idempotent_witness :
  exists s1,
    select (UnitChange (Done (UnitDoc Alive ResolvedRetryHooks (Some foo1))))
           started = Some (Val tt, s1, [UnitRefresh]) /\
    select (UnitChange (Done (UnitDoc Alive ResolvedRetryHooks (Some foo1))))
           s1 = Some (Val tt, s1, [UnitRefresh]).
Proof.
  eexists. split; [vm_compute; reflexivity|].
  refine (proj1 (unit_change_idempotent _ started _ [UnitRefresh] _)).
  vm_compute. reflexivity.
Defined.

Lemma upgradeChanged_again (s s1 : state) (t : list action) :
  upgradeChanged s = (Val tt, s1, t) ->
  t = [] /\ upgradeChanged s1 = (Val tt, s1, []) /\
  upgradeAvailable s1 = upgradeAvailable s.
Proof.
  intros H.
  destruct (decide (life s = Alive)) as [L|L]; cycle 1.
  { rewrite upgradeChanged_not_alive in H by done. unfold disarmed in H.
    simplify_eq. rewrite upgradeChanged_not_alive by done. done. }
  destruct (url (upgradeFrom s)) as [from|] eqn:F; cycle 1.
  { rewrite upgradeChanged_no_charm in H by done. unfold disarmed in H.
    simplify_eq. rewrite upgradeChanged_no_charm by done. done. }
  destruct (url (upgradeAvailable s)) as [avail|] eqn:A; cycle 1.
  { unfold upgradeChanged, bind, get, panic in H. rewrite F, A in H.
    by case_decide. }
  rewrite (upgradeChanged_alive s from avail L F A) in H.
  case_bool_decide as E.
  - unfold disarmed in H. simplify_eq.
    rewrite (upgradeChanged_alive _ from from) by done.
    by rewrite bool_decide_eq_true_2.
  - destruct (_ || _) eqn:Pol; unfold armed, disarmed in H; simplify_eq.
    + rewrite (upgradeChanged_alive _ from avail) by done.
      rewrite bool_decide_eq_false_2 by done. simpl. by rewrite Pol.
    + rewrite (upgradeChanged_alive _ from avail) by done.
      rewrite bool_decide_eq_false_2 by done. simpl. by rewrite Pol.
Qed.

Lemma refreshed_same (d : service_doc) (s : state) :
  upgradeAvailable s = ServiceCharm (Some (service_url d)) (service_force d) ->
  refreshed d s = s.
Proof. intros E. unfold refreshed. destruct s. simpl in *. by subst. Qed.

(** X13.  A service notification that reads back what the previous one
    read leaves the filter as it is: the same upgrade stays armed, or
    stays disarmed. *)
Theorem service_change_idempotent (d : service_doc) (destroy : reply ()) (s s1 : state) (t1 : list action) :
  select (ServiceChange (Done d) destroy) s = Some (Val tt, s1, t1) ->
  select (ServiceChange (Done d) destroy) s1 = Some (Val tt, s1, t1).
Proof.
  intros H. unfold select in *. simpl ready in *. apply (inj Some) in H.
  f_equal. simpl handle in *. rewrite serviceChanged_unfold in *.
  assert (forall t0, after t0 upgradeChanged (refreshed d s) = (Val tt, s1, t1) ->
            after t0 upgradeChanged (refreshed d s1) = (Val tt, s1, t1)) as Again.
  { intros t0 H0. unfold after in *.
    destruct (upgradeChanged (refreshed d s)) as [[r0 s0'] t0'] eqn:U0.
    simplify_eq.
    apply upgradeChanged_again in U0 as (-> & U1 & Av).
    rewrite refreshed_same by (by rewrite Av). by rewrite U1. }
  destruct (service_life d), destroy; try done; by apply Again.
Qed.

(** X13 on a service read back twice with a forced [cs:foo-3]. *)
Lemma service_change_idempotent_witness :
  exists s1,
    select (ServiceChange (Done (ServiceDoc Alive foo3 true)) (Done tt)) started
    = Some (Val tt, s1, [ServiceRefresh]) /\
    select (ServiceChange (Done (ServiceDoc Alive foo3 true)) (Done tt)) s1
    = Some (Val tt, s1, [ServiceRefresh]).
Proof.
  eexists. split; [vm_compute; reflexivity|].
  refine (service_change_idempotent _ _ started _ _ _).
  vm_compute. reflexivity.
Defined.
